(** * A fully-connected layer on device memory: model and properties

    Shallow embedding of [fc_layer.cu]: the constructor with its two
    initialisation kernels, [forward], [backward] and [update_params].

    Modelling conventions.
    - [float] is IEEE 754 binary32, taken from the Standard Library's
      executable specification [SpecFloat] at precision 24 and [emax] 128
      (round to nearest, ties to even; a single NaN, no payload).  Every
      C expression is rounded operation by operation, as it is written.
    - A device allocation is a [list] of its elements.  Reading or writing
      outside an allocation is undefined in CUDA; here it makes the
      operation return [None], so every result of the form [Some _] is an
      execution without such an access.
    - [int] quantities are natural numbers: the model covers the executions
      in which no [int] expression overflows.  The theorems about an
      operation carry the corresponding range hypotheses: the weight
      count plus the block size, [input_size * output_size + 256] (and
      [output_size + 256] for the bias launch), and the largest column
      offset, bounded by [output_size * batch_size], must not exceed
      [INT_MAX = 2147483647]; a grid must not exceed [2^31] threads.
    - A kernel launch runs its threads one after the other, by block and
      thread index.  Each thread of the kernels below touches only the
      element at its own global index, so the order is immaterial.
    - The buffers an operation receives are distinct allocations: the
      caller's batch tensors alias neither each other nor the layer's
      buffers.
    - cuBLAS, cuRAND and the CUDA runtime are not part of the repository;
      [cublasSgemm], [cublasSaxpy], [cudaMemcpy], [cudaMemset] and
      [cudaMalloc] follow their documentation, and the cuRAND device
      generator is a parameter of the constructor.  Status codes are
      ignored, as the source ignores them. *)

From Stdlib Require Import ZArith Lia SpecFloat.
From stdpp Require Import base tactics option list numbers.

Set Default Proof Using "Type".
Local Open Scope nat_scope.

(** ** binary32 arithmetic *)

Module F32.

Definition prec : Z := 24.
Definition emax : Z := 128.

Abbreviation float := spec_float.

(** [spec_float] also contains mantissa/exponent pairs that are not in
    normal form; [valid] holds of the values that are binary32 numbers
    (every zero, infinity and NaN, and the canonical finite pairs). *)
Definition valid (x : float) : bool := valid_binary prec emax x.

Definition fadd (x y : float) : float := SFadd prec emax x y.
Definition fsub (x y : float) : float := SFsub prec emax x y.
Definition fmul (x y : float) : float := SFmul prec emax x y.
Definition fdiv (x y : float) : float := SFdiv prec emax x y.
Definition sqrtf (x : float) : float := SFsqrt prec emax x.
Definition fabs (x : float) : float := SFabs x.
Definition fleb (x y : float) : bool := SFleb x y.

(** Conversion of an [int] to [float] (round to nearest even). *)
Definition of_int (n : Z) : float := binary_normalize prec emax n 0 false.

(** The literals of the source: [0.0f], [1.0f], [2.0f], [6.0f]. *)
Definition zero : float := S754_zero false.
Definition one : float := S754_finite false 8388608 (-23).
Definition two : float := S754_finite false 8388608 (-22).
Definition six : float := S754_finite false 12582912 (-21).

Definition nzero : float := S754_zero true.
Definition nan : float := S754_nan.
Definition mone : float := S754_finite true 8388608 (-23).

(** [x == 0.0f] as C evaluates it: true of both zeros. *)
Definition is_zero (x : float) : bool :=
  match x with S754_zero _ => true | _ => false end.

(** Neither NaN nor an infinity. *)
Definition is_finite (x : float) : bool :=
  match x with S754_zero _ | S754_finite _ _ _ => true | _ => false end.

#[export] Instance float_eq_dec : EqDecision float.
Proof. solve_decision. Defined.

End F32.

Import F32.

(** ** Device memory *)

Abbreviation buffer := (list float).

Definition load {A} (b : list A) (i : nat) : option A := b !! i.

Definition store {A} (b : list A) (i : nat) (v : A) : option (list A) :=
  if decide (i < length b) then Some (<[i := v]> b) else None.

(** [cudaMalloc]: the new allocation holds [n] elements whose contents are
    whatever the memory held before, [junk]. *)
Definition cudaMalloc {A} (junk : nat -> A) (n : nat) : list A :=
  junk <$> seq 0 n.

(** ** Control: counted loops and kernel launches *)

(** [for (i = start; i < start + n; ++i) s = body i s], stopping at the
    first undefined step. *)
Fixpoint for_loop {St} (n start : nat) (body : nat -> St -> option St) (s : St)
  : option St :=
  match n with
  | 0 => Some s
  | S n' => s' ← body start s; for_loop n' (S start) body s'
  end.

(** [kernel<<<numBlocks, blockSize>>>(...)]: the kernel body receives
    [blockIdx.x], [blockDim.x] and [threadIdx.x]. *)
Definition launch {St} (numBlocks blockSize : nat)
    (kernel : nat -> nat -> nat -> St -> option St) (s : St) : option St :=
  for_loop numBlocks 0
    (λ blockIdx s,
       for_loop blockSize 0
         (λ threadIdx s, kernel blockIdx blockSize threadIdx s) s)
    s.

(** ** The layer *)

Record FCLayer := mkFCLayer {
  input_size : nat;
  output_size : nat;
  weights : buffer;
  bias : buffer;
  grad_weights : buffer;
  grad_bias : buffer
}.

(** The buffers have the sizes the constructor allocates. *)
Definition well_sized (L : FCLayer) : Prop :=
  length (weights L) = input_size L * output_size L ∧
  length (bias L) = output_size L ∧
  length (grad_weights L) = input_size L * output_size L ∧
  length (grad_bias L) = output_size L.

(** ** [update_params] *)

(** One thread of [update_params_kernel]. *)
Definition update_params_kernel (grads : buffer) (size : nat) (learning_rate : float)
    (blockIdx blockDim threadIdx : nat) (params : buffer) : option buffer :=
  let idx := blockIdx * blockDim + threadIdx in
  if decide (idx < size) then
    p ← load params idx;
    g ← load grads idx;
    store params idx (fsub p (fmul learning_rate g))
  else Some params.

Definition update_params (L : FCLayer) (learning_rate : float) : option FCLayer :=
  let blockSize := 256 in
  let numBlocks := (input_size L * output_size L + blockSize - 1) / blockSize in
  weights' ← launch numBlocks blockSize
    (update_params_kernel (grad_weights L) (input_size L * output_size L) learning_rate)
    (weights L);
  let numBlocks := (output_size L + blockSize - 1) / blockSize in
  bias' ← launch numBlocks blockSize
    (update_params_kernel (grad_bias L) (output_size L) learning_rate)
    (bias L);
  Some (mkFCLayer (input_size L) (output_size L) weights' bias'
          (grad_weights L) (grad_bias L)).

(** ** The cuBLAS and runtime operations the layer calls *)

Inductive cublasOperation_t := CUBLAS_OP_N | CUBLAS_OP_T.

(** Position of entry (row, col) of [op(M)] in the column-major buffer of
    [M] with leading dimension [ld]. *)
Definition mat_index (trans : cublasOperation_t) (ld row col : nat) : nat :=
  match trans with
  | CUBLAS_OP_N => row + col * ld
  | CUBLAS_OP_T => col + row * ld
  end.

(** Number of rows of the stored matrix [M] when [op(M)] is [rows × cols]. *)
Definition stored_rows (trans : cublasOperation_t) (rows cols : nat) : nat :=
  match trans with CUBLAS_OP_N => rows | CUBLAS_OP_T => cols end.

(** The argument check of [cublasSgemm]; when it fails the call returns
    [CUBLAS_STATUS_INVALID_VALUE] and computes nothing. *)
Definition gemm_args_ok (transa transb : cublasOperation_t)
    (m n k lda ldb ldc : nat) : bool :=
  bool_decide (max 1 (stored_rows transa m k) ≤ lda) &&
  bool_decide (max 1 (stored_rows transb k n) ≤ ldb) &&
  bool_decide (max 1 m ≤ ldc).

(** Entry (i, j) of [op(A) · op(B)], summed in index order from [0.0f]. *)
Definition gemm_dot (transa transb : cublasOperation_t) (k : nat)
    (A : buffer) (lda : nat) (B : buffer) (ldb : nat) (i j : nat) : option float :=
  for_loop k 0
    (λ l acc,
       a ← load A (mat_index transa lda i l);
       b ← load B (mat_index transb ldb l j);
       Some (fadd acc (fmul a b)))
    zero.

(** [C = alpha * op(A) · op(B) + beta * C] on column-major buffers, with
    [op(A)] of shape [m × k], [op(B)] of shape [k × n] and [C] of shape
    [m × n].  With [beta == 0] the old contents of [C] are not read. *)
Definition cublasSgemm (transa transb : cublasOperation_t) (m n k : nat)
    (alpha : float) (A : buffer) (lda : nat) (B : buffer) (ldb : nat)
    (beta : float) (C : buffer) (ldc : nat) : option buffer :=
  if gemm_args_ok transa transb m n k lda ldb ldc then
    for_loop n 0
      (λ j C,
         for_loop m 0
           (λ i C,
              acc ← gemm_dot transa transb k A lda B ldb i j;
              v ← (if is_zero beta then Some (fmul alpha acc)
                   else c ← load C (i + j * ldc);
                        Some (fadd (fmul alpha acc) (fmul beta c)));
              store C (i + j * ldc) v)
           C)
      C
  else Some C.

(** [y = alpha * x + y] over [n] elements; [x] is the pointer
    [x_buf + x_off]. *)
Definition cublasSaxpy (n : nat) (alpha : float) (x_buf : buffer) (x_off incx : nat)
    (y : buffer) (incy : nat) : option buffer :=
  for_loop n 0
    (λ k y,
       xv ← load x_buf (x_off + k * incx);
       yv ← load y (k * incy);
       store y (k * incy) (fadd (fmul alpha xv) yv))
    y.

(** [cudaMemcpy(dst + dst_off, src, count * sizeof(float), DeviceToDevice)]. *)
Definition cudaMemcpy (dst : buffer) (dst_off : nat) (src : buffer) (count : nat)
  : option buffer :=
  for_loop count 0
    (λ k dst, v ← load src k; store dst (dst_off + k) v)
    dst.

(** [cudaMemset(dst, 0, count * sizeof(float))]: every byte becomes zero,
    so every element becomes [+0.0f]. *)
Definition cudaMemset_zero (dst : buffer) (count : nat) : option buffer :=
  for_loop count 0 (λ k dst, store dst k zero) dst.

(** ** [forward] and [backward] *)

Definition forward (L : FCLayer) (input output : buffer) (batch_size : nat)
  : option buffer :=
  let alpha := one in
  let beta := zero in
  output ← cublasSgemm CUBLAS_OP_T CUBLAS_OP_N
              (output_size L) batch_size (input_size L)
              alpha (weights L) (input_size L) input (input_size L)
              beta output (output_size L);
  for_loop batch_size 0
    (λ i output, cudaMemcpy output (i * output_size L) (bias L) (output_size L))
    output.

(** [backward] returns the layer with its new gradient buffers, and the
    caller's [grad_input] buffer. *)
Definition backward (L : FCLayer) (input grad_output grad_input : buffer)
    (batch_size : nat) : option (FCLayer * buffer) :=
  let alpha := one in
  let beta := zero in
  grad_input ← cublasSgemm CUBLAS_OP_N CUBLAS_OP_N
                  (input_size L) batch_size (output_size L)
                  alpha (weights L) (input_size L) grad_output (output_size L)
                  beta grad_input (input_size L);
  grad_weights' ← cublasSgemm CUBLAS_OP_N CUBLAS_OP_T
                  (input_size L) (output_size L) batch_size
                  alpha input (input_size L) grad_output (output_size L)
                  beta (grad_weights L) (input_size L);
  grad_bias' ← for_loop batch_size 0
                  (λ i grad_bias,
                     cublasSaxpy (output_size L) alpha
                       grad_output (i * output_size L) 1 grad_bias 1)
                  (grad_bias L);
  Some (mkFCLayer (input_size L) (output_size L) (weights L) (bias L)
          grad_weights' grad_bias',
        grad_input).

(** ** The constructor *)

Section Constructor.

(** The cuRAND device generator: its state type, [curand_init] (seed,
    sequence, offset) and [curand_uniform], which returns the draw and
    the advanced state. *)
Context {curandState : Type}.
Variable curand_init : Z -> nat -> nat -> curandState.
Variable curand_uniform : curandState -> float * curandState.

Definition init_curand_states (seed : Z) (n : nat)
    (blockIdx blockDim threadIdx : nat) (state : list curandState)
  : option (list curandState) :=
  let id := blockIdx * blockDim + threadIdx in
  if decide (id < n) then store state id (curand_init seed id 0)
  else Some state.

(** The value [init_weights] writes for the draw [u]. *)
Definition init_weight_value (size : nat) (u : float) : float :=
  let r := sqrtf (fdiv six (of_int (Z.of_nat size))) in
  fmul (fsub (fmul u two) one) r.

Definition init_weights (size : nat) (scale : float)
    (blockIdx blockDim threadIdx : nat) (ws : buffer * list curandState)
  : option (buffer * list curandState) :=
  let '(weights, states) := ws in
  let idx := blockIdx * blockDim + threadIdx in
  if decide (idx < size) then
    localState ← load states idx;
    let '(u, localState) := curand_uniform localState in
    weights ← store weights idx (init_weight_value size u);
    states ← store states idx localState;
    Some (weights, states)
  else Some (weights, states).

(** The draw that initialises weight [i]: the first one of the state that
    [init_curand_states] made for sequence [i]. *)
Definition first_draw (i : nat) : float :=
  (curand_uniform (curand_init 1234 i 0)).1.

(** The fan-in scale the constructor passes to [init_weights]. *)
Definition fan_in_scale (input_size : nat) : float :=
  sqrtf (fdiv two (of_int (Z.of_nat input_size))).

(** [FCLayer::FCLayer] with the scale argument of [init_weights] made
    explicit. *)
Definition FCLayer_new_with_scale (scale : float) (input_size output_size : nat)
    (junk_w junk_b junk_gw junk_gb : nat -> float) (junk_st : nat -> curandState)
  : option FCLayer :=
  let weights := cudaMalloc junk_w (input_size * output_size) in
  let bias := cudaMalloc junk_b output_size in
  let grad_weights := cudaMalloc junk_gw (input_size * output_size) in
  let grad_bias := cudaMalloc junk_gb output_size in
  let d_states := cudaMalloc junk_st (input_size * output_size) in
  let blockSize := 256 in
  let numBlocks := (input_size * output_size + blockSize - 1) / blockSize in
  d_states ← launch numBlocks blockSize
               (init_curand_states 1234 (input_size * output_size)) d_states;
  '(weights, d_states) ← launch numBlocks blockSize
               (init_weights (input_size * output_size) scale) (weights, d_states);
  bias ← cudaMemset_zero bias output_size;
  Some (mkFCLayer input_size output_size weights bias grad_weights grad_bias).

(** [FCLayer::FCLayer(input_size, output_size)].  The [junk_*] arguments
    are the stale contents of the five allocations. *)
Definition FCLayer_new (input_size output_size : nat)
    (junk_w junk_b junk_gw junk_gb : nat -> float) (junk_st : nat -> curandState)
  : option FCLayer :=
  FCLayer_new_with_scale (fan_in_scale input_size) input_size output_size
    junk_w junk_b junk_gw junk_gb junk_st.

End Constructor.

(** ** Specification vocabulary *)

#[export] Instance float_inhabited : Inhabited float := populate zero.

(** Entry (row, col) of the column-major matrix stored in [M] with leading
    dimension [ld]. *)
Definition entry (M : buffer) (ld row col : nat) : float := M !!! (row + col * ld).

(** [a 0 * b 0 + ... + a (k-1) * b (k-1)], each product and sum rounded,
    accumulated in index order from [0.0f]. *)
Definition dot (k : nat) (a b : nat -> float) : float :=
  foldl (λ acc l, fadd acc (fmul (a l) (b l))) zero (seq 0 k).

(** The elementwise step [param - learning_rate * grad] over two buffers. *)
Definition sgd_step (lr : float) (params grads : buffer) : buffer :=
  zip_with (λ p g, fsub p (fmul lr g)) params grads.

(** Entry (i, j) of [alpha * op(A) · op(B)] on column-major buffers. *)
Definition gemm_entry (transa transb : cublasOperation_t) (k : nat) (alpha : float)
    (A : buffer) (lda : nat) (B : buffer) (ldb : nat) (i j : nat) : float :=
  fmul alpha (dot k (λ l, A !!! mat_index transa lda i l)
                    (λ l, B !!! mat_index transb ldb l j)).

(** Column [j] of a column-major matrix with [rows] rows. *)
Definition column (M : buffer) (rows j : nat) : buffer :=
  take rows (drop (j * rows) M).

(** Entry (i, j) of the affine map [Wᵗ · Input + b] that [forward] is
    documented to compute, with [W] of shape [input_size × output_size]. *)
Definition affine_entry (L : FCLayer) (input : buffer) (i j : nat) : float :=
  fadd (dot (input_size L)
          (λ l, entry (weights L) (input_size L) l i)
          (λ l, entry input (input_size L) l j))
       (bias L !!! i).

(** [add_columns G rows cols k acc]: row [k] of the [rows × cols] matrix
    [G] added to [acc] one column after the other. *)
Definition add_columns (G : buffer) (rows cols : nat) (k : nat) (acc : float) : float :=
  foldl (λ acc j, fadd acc (entry G rows k j)) acc (seq 0 cols).

(** [|x| <= mb * 2^eb] for a zero or canonical finite [x] and a canonical
    bound. *)
Definition mag_le (x : float) (mb : positive) (eb : Z) : Prop :=
  match x with
  | S754_zero _ => True
  | S754_finite _ m e => (e < eb)%Z \/ (e = eb /\ (Zpos m <= Zpos mb)%Z)
  | _ => False
  end.

Definition has_sign (s : bool) (x : float) : Prop :=
  match x with
  | S754_zero s' | S754_finite s' _ _ | S754_infinity s' => s' = s
  | S754_nan => False
  end.

(** A zero of either sign or a positive finite value. *)
Definition is_nonneg (x : float) : Prop :=
  match x with
  | S754_zero _ => True
  | S754_finite s _ _ => s = false
  | _ => False
  end.

(** [writes W C C']: [C'] is [C] overwritten at every index [idx] where
    [W idx] is a value. *)
Definition writes (W : nat -> option float) (C C' : buffer) : Prop :=
  length C' = length C /\
  forall idx, C' !! idx = from_option Some (C !! idx) (W idx).

(** The combined effect of the write maps [Wi 0], ..., [Wi (n-1)] applied
    in this order: the last write to an index wins. *)
Fixpoint writes_upto (Wi : nat -> nat -> option float) (n : nat) (idx : nat)
  : option float :=
  match n with
  | 0 => None
  | S n' => match Wi n' idx with
            | Some v => Some v
            | None => writes_upto Wi n' idx
            end
  end.

(** ** Sample layers *)

(** A layer with two inputs and one output, used to exercise the theorems. *)
Definition sample_layer : FCLayer :=
  mkFCLayer 2 1 [one; two] [six] [two; one] [one].

(** A layer whose weight gradient is NaN and whose bias is [-0.0f] with
    gradient [-1.0f]. *)
Definition nan_gradient_layer : FCLayer :=
  mkFCLayer 1 1 [one] [nzero] [nan] [mone].

(** The scenario of a 4 × 3 layer with a batch of two: [W] holds 1 to 12
    in storage order, [b = (1, 2, 3)], the gradient buffers start at zero,
    and the input columns are the first two unit vectors. *)
Definition scenario_layer : FCLayer :=
  mkFCLayer 4 3 (of_int <$> [1; 2; 3; 4; 5; 6; 7; 8; 9; 10; 11; 12]%Z)
    (of_int <$> [1; 2; 3]%Z) (replicate 12 zero) (replicate 3 zero).

Definition scenario_input : buffer := of_int <$> [1; 0; 0; 0; 0; 1; 0; 0]%Z.

(** A toy generator for exercising the constructor: the state is a
    counter and every draw is [1.0f]. *)
Definition toy_curand_init (seed : Z) (sequence offset : nat) : nat := sequence.
Definition toy_curand_uniform (st : nat) : float * nat := (one, S st).

(** * Properties *)

(** ** binary32 facts *)

Section Binary32.

Local Open Scope Z_scope.

Lemma digits2_pos_size (p : positive) : digits2_pos p = Pos.size p.
Proof. induction p; simpl; congruence. Qed.

Lemma Zdigits2_log2 (m : Z) : 0 < m -> Zdigits2 m = Z.log2 m + 1.
Proof.
  destruct m as [|p|p]; try lia. intros _. simpl.
  destruct p; simpl; rewrite ?digits2_pos_size; lia.
Qed.

Lemma Zdigits2_bounds (m : Z) :
  0 < m -> 2 ^ (Zdigits2 m - 1) <= m < 2 ^ Zdigits2 m.
Proof.
  intros Hm. rewrite Zdigits2_log2 by done.
  replace (Z.log2 m + 1 - 1) with (Z.log2 m) by lia.
  replace (Z.log2 m + 1) with (Z.succ (Z.log2 m)) by lia.
  apply Z.log2_spec. done.
Qed.

Lemma Zdigits2_nonneg (m : Z) : 0 <= Zdigits2 m.
Proof. destruct m; simpl; lia. Qed.

Lemma Zdigits2_le (m : Z) (d : Z) : 0 <= d -> 0 <= m < 2 ^ d -> Zdigits2 m <= d.
Proof.
  intros Hd [Hm0 Hm]. destruct (Z.eq_dec m 0) as [-> | Hne]; [simpl; lia |].
  rewrite Zdigits2_log2 by lia.
  assert (Z.log2 m < d) by (apply Z.log2_lt_pow2; lia). lia.
Qed.

Lemma Zdigits2_ge (m : Z) (d : Z) : 0 < d -> 2 ^ (d - 1) <= m -> d <= Zdigits2 m.
Proof.
  intros Hd Hm. assert (0 < 2 ^ (d - 1)) by (apply Z.pow_pos_nonneg; lia).
  rewrite Zdigits2_log2 by lia.
  assert (d - 1 <= Z.log2 m) by (apply Z.log2_le_pow2; lia). lia.
Qed.

Lemma fexp_eq (e : Z) : fexp prec emax e = Z.max (e - 24) (-149).
Proof. reflexivity. Qed.

(** Canonical mantissa/exponent pairs of binary32. *)
Lemma canonical_iff (m : positive) (e : Z) :
  canonical_mantissa prec emax m e = true <->
  -149 <= e /\ Zpos m < 16777216 /\ (e = -149 \/ 8388608 <= Zpos m).
Proof.
  unfold canonical_mantissa. rewrite Z.eqb_eq, fexp_eq.
  change (Zpos (digits2_pos m)) with (Zdigits2 (Zpos m)).
  pose proof (Zdigits2_bounds (Zpos m) ltac:(lia)) as [Hlo Hhi].
  pose proof (Zdigits2_nonneg (Zpos m)).
  split.
  - intros He.
    assert (Hd : Zdigits2 (Z.pos m) <= 24) by lia.
    split; [lia |]. split.
    + change 16777216 with (2 ^ 24).
      eapply Z.lt_le_trans; [exact Hhi |]. apply Z.pow_le_mono_r; lia.
    + destruct (Z.eq_dec e (-149)) as [|Hne]; [by left | right].
      assert (Zdigits2 (Z.pos m) = 24) as Hd24 by lia.
      rewrite Hd24 in Hlo. exact Hlo.
  - intros (He & Hm & Hn).
    assert (Zdigits2 (Z.pos m) <= 24)
      by (apply Zdigits2_le; [lia | change (2 ^ 24) with 16777216; lia]).
    destruct Hn as [-> | Hn]; [lia |].
    assert (24 <= Zdigits2 (Z.pos m))
      by (apply Zdigits2_ge; [lia | exact Hn]).
    lia.
Qed.

(** Right shifts of the rounding record. *)
Lemma iter_pos_comm {A} (f : A -> A) (p : positive) (x : A) :
  SpecFloat.iter_pos f p (f x) = f (SpecFloat.iter_pos f p x).
Proof. revert x. induction p as [p IH | p IH |]; intros x; simpl; by rewrite ?IH. Qed.

Lemma iter_pos_succ {A} (f : A -> A) (p : positive) (x : A) :
  SpecFloat.iter_pos f (Pos.succ p) x = f (SpecFloat.iter_pos f p x).
Proof.
  revert x. induction p as [p IH | p IH |]; intros x; simpl.
  - by rewrite !IH, !iter_pos_comm.
  - by rewrite !iter_pos_comm.
  - done.
Qed.

Lemma shr_1_m (r : shr_record) : shr_m (shr_1 r) = Z.quot2 (shr_m r).
Proof. by destruct r as [[|[]|[]] ? ?]. Qed.

Lemma quot2_shiftr (m : Z) : 0 <= m -> Z.quot2 m = Z.shiftr m 1.
Proof.
  intros Hm. rewrite <- Z.div2_spec. destruct m as [|[]|]; try done; lia.
Qed.

Lemma shr_m_iter (p : positive) (r : shr_record) :
  0 <= shr_m r -> shr_m (SpecFloat.iter_pos shr_1 p r) = Z.shiftr (shr_m r) (Zpos p).
Proof.
  intros Hr. induction p as [|p IH] using Pos.peano_ind.
  - simpl SpecFloat.iter_pos. rewrite shr_1_m. by apply quot2_shiftr.
  - rewrite iter_pos_succ, shr_1_m, IH, quot2_shiftr.
    + rewrite Z.shiftr_shiftr by lia. f_equal. lia.
    + apply Z.shiftr_nonneg. done.
Qed.

Lemma shr_m_of_loc (m : Z) (l : location) : shr_m (shr_record_of_loc m l) = m.
Proof. by destruct l as [|[]]. Qed.

Lemma shr_fexp_spec (m e : Z) (l : location) :
  0 <= m ->
  let e' := Z.max e (fexp prec emax (Zdigits2 m + e)) in
  snd (shr_fexp prec emax m e l) = e' /\
  shr_m (fst (shr_fexp prec emax m e l)) = Z.shiftr m (e' - e).
Proof.
  intros Hm e'. unfold shr_fexp, shr. subst e'.
  destruct (fexp prec emax (Zdigits2 m + e) - e) as [|n|n] eqn:Hn; simpl.
  - rewrite Z.max_l by lia. rewrite Z.sub_diag, Z.shiftr_0_r, shr_m_of_loc. done.
  - rewrite Z.max_r by lia. split; [lia |].
    rewrite shr_m_iter by (by rewrite shr_m_of_loc).
    rewrite shr_m_of_loc. f_equal. lia.
  - rewrite Z.max_l by lia. rewrite Z.sub_diag, Z.shiftr_0_r, shr_m_of_loc. done.
Qed.

Lemma round_nearest_even_bounds (m : Z) (l : location) :
  m <= round_nearest_even m l <= m + 1.
Proof. destruct l as [|[]]; simpl; try lia. destruct (Z.even m); lia. Qed.

(** The mantissa left by the first shift of [binary_round_aux] fits the
    format. *)
Lemma shiftr_fits (m e : Z) :
  0 <= m -> e <= fexp prec emax (Zdigits2 m + e) ->
  let e' := fexp prec emax (Zdigits2 m + e) in
  let m' := Z.shiftr m (e' - e) in
  0 <= m' < 16777216 /\ -149 <= e' /\ (e' = -149 \/ 8388608 <= m').
Proof.
  intros Hm He e' m'. subst e' m'. rewrite fexp_eq in *.
  set (d := Zdigits2 m) in *.
  assert (0 <= d) by apply Zdigits2_nonneg.
  set (e' := Z.max (d + e - 24) (-149)) in *.
  rewrite Z.shiftr_div_pow2 by lia.
  assert (Hpow : 0 < 2 ^ (e' - e)) by (apply Z.pow_pos_nonneg; lia).
  split; [| split; [lia |]].
  - split; [apply Z.div_pos; lia |].
    apply Z.div_lt_upper_bound; [done |].
    destruct (Z.eq_dec m 0) as [-> | Hne]; [lia |].
    pose proof (Zdigits2_bounds m ltac:(lia)) as [_ Hhi]. fold d in Hhi.
    eapply Z.lt_le_trans; [exact Hhi |].
    change 16777216 with (2 ^ 24). rewrite <- Z.pow_add_r by lia.
    apply Z.pow_le_mono_r; lia.
  - destruct (Z.eq_dec e' (-149)) as [| Hne]; [by left | right].
    assert (He' : e' = d + e - 24) by lia.
    assert (m <> 0) as Hm0. { intros ->. subst d. simpl in *. lia. }
    pose proof (Zdigits2_bounds m ltac:(lia)) as [Hlo _]. fold d in Hlo.
    apply Z.div_le_lower_bound; [done |].
    change 8388608 with (2 ^ 23). rewrite <- Z.pow_add_r by lia.
    replace (e' - e + 23) with (d - 1) by lia. done.
Qed.

Lemma binary_round_aux_valid (s : bool) (m e : Z) (l : location) :
  0 <= m -> e <= fexp prec emax (Zdigits2 m + e) ->
  valid (binary_round_aux prec emax s m e l) = true.
Proof.
  intros Hm He. unfold binary_round_aux.
  pose proof (shr_fexp_spec m e l Hm) as [He1 Hm1]. cbv zeta in He1, Hm1.
  destruct (shr_fexp prec emax m e l) as [r1 e1]. simpl in He1, Hm1.
  rewrite Z.max_r in He1, Hm1 by done.
  pose proof (shiftr_fits m e Hm He) as (Hfit & Hemin & Hnorm). cbv zeta in Hfit, Hemin, Hnorm.
  rewrite <- He1 in Hfit, Hemin, Hnorm, Hm1. rewrite <- Hm1 in Hfit, Hnorm.
  pose proof (round_nearest_even_bounds (shr_m r1) (loc_of_shr_record r1)) as Hr.
  set (m1 := round_nearest_even (shr_m r1) (loc_of_shr_record r1)) in *.
  pose proof (shr_fexp_spec m1 e1 loc_Exact ltac:(lia)) as [He2 Hm2]. cbv zeta in He2, Hm2.
  destruct (shr_fexp prec emax m1 e1 loc_Exact) as [r2 e2]. simpl in He2, Hm2.
  assert (Hcases : (e2 = e1 /\ shr_m r2 = m1 /\ m1 < 16777216) \/
                   (e2 = e1 + 1 /\ shr_m r2 = 8388608)).
  { destruct (Z.eq_dec m1 16777216) as [Heq | Hne].
    - right. rewrite Heq in He2, Hm2. rewrite fexp_eq in He2, Hm2.
      change (Zdigits2 16777216) with 25 in He2, Hm2.
      replace (e1 `max` ((25 + e1 - 24) `max` (-149))) with (e1 + 1) in * by lia.
      split; [done |].
      rewrite Hm2. replace (e1 + 1 - e1) with 1 by lia. reflexivity.
    - left. assert (Zdigits2 m1 <= 24)
        by (apply Zdigits2_le; [lia | change (2 ^ 24) with 16777216; lia]).
      rewrite fexp_eq in He2, Hm2.
      replace (e1 `max` ((Zdigits2 m1 + e1 - 24) `max` (-149))) with e1 in * by lia.
      split; [done |].
      rewrite Z.sub_diag, Z.shiftr_0_r in Hm2. split; [done | lia]. }
  destruct (shr_m r2) as [|m2|m2] eqn:Hr2; [done | | done].
  destruct (e2 <=? emax - prec) eqn:Hle; [| done].
  unfold valid, valid_binary, bounded. rewrite Hle, andb_true_r.
  apply canonical_iff. destruct Hcases as [(-> & Heq & Hlt) | (-> & Heq)]; lia.
Qed.

Lemma digits2_pos_iter_xO (m d : positive) :
  Zpos (digits2_pos (Pos.iter xO m d)) = Zpos (digits2_pos m) + Zpos d.
Proof.
  induction d as [|d IH] using Pos.peano_ind.
  - simpl. lia.
  - rewrite Pos.iter_succ. simpl digits2_pos. lia.
Qed.

Lemma binary_round_valid (s : bool) (m : positive) (e : Z) :
  valid (binary_round prec emax s m e) = true.
Proof.
  unfold binary_round, shl_align.
  destruct (fexp prec emax (Zpos (digits2_pos m) + e) - e) as [|d|d] eqn:Hd;
    apply binary_round_aux_valid; try done; simpl Zdigits2; try lia.
  rewrite digits2_pos_iter_xO.
  replace (Zpos (digits2_pos m) + Zpos d + fexp prec emax (Zpos (digits2_pos m) + e))
    with (Zpos (digits2_pos m) + e) by lia.
  lia.
Qed.

Lemma binary_normalize_valid (m e : Z) (s : bool) :
  valid (binary_normalize prec emax m e s) = true.
Proof. destruct m; simpl; [done | apply binary_round_valid ..]. Qed.

Lemma fadd_valid (x y : float) :
  valid x = true -> valid y = true -> valid (fadd x y) = true.
Proof.
  intros Hx Hy. destruct x as [[]|[]| |], y as [[]|[]| |]; try done.
  apply binary_normalize_valid.
Qed.

Lemma fsub_valid (x y : float) :
  valid x = true -> valid y = true -> valid (fsub x y) = true.
Proof.
  intros Hx Hy. destruct x as [[]|[]| |], y as [[]|[]| |]; try done.
  apply binary_normalize_valid.
Qed.

Lemma valid_finite (s : bool) (m : positive) (e : Z) :
  valid (S754_finite s m e) = true <->
  -149 <= e <= 104 /\ Zpos m < 16777216 /\ (e = -149 \/ 8388608 <= Zpos m).
Proof.
  unfold valid, valid_binary, bounded.
  rewrite andb_true_iff, canonical_iff, Z.leb_le. change (emax - prec) with 104. lia.
Qed.

Lemma fmul_valid (x y : float) :
  valid x = true -> valid y = true -> valid (fmul x y) = true.
Proof.
  intros Hx Hy. destruct x as [| | |sx mx ex], y as [| | |sy my ey]; try done.
  apply valid_finite in Hx, Hy. unfold fmul, SFmul.
  apply binary_round_aux_valid; [lia |].
  rewrite fexp_eq. rewrite Pos2Z.inj_mul.
  destruct (Z.eq_dec ex (-149)) as [Hex | Hex], (Z.eq_dec ey (-149)) as [Hey | Hey];
    [lia | | |].
  all: assert (24 <= Zdigits2 (Zpos mx * Zpos my))
         by (apply Zdigits2_ge; [lia | change (2 ^ (24 - 1)) with 8388608; nia]);
       lia.
Qed.

Lemma shr_1_double (k : Z) :
  0 <= k ->
  shr_1 (Build_shr_record (2 * k) false false) = Build_shr_record k false false.
Proof. by destruct k. Qed.

Lemma iter_shr_1_exact (p : positive) (m : Z) :
  0 <= m ->
  SpecFloat.iter_pos shr_1 p (Build_shr_record (m * 2 ^ Zpos p) false false)
    = Build_shr_record m false false.
Proof.
  intros Hm. induction p as [|p IH] using Pos.peano_ind.
  - simpl SpecFloat.iter_pos. replace (m * 2 ^ 1) with (2 * m) by lia.
    by apply shr_1_double.
  - rewrite iter_pos_succ, <- iter_pos_comm.
    rewrite Pos2Z.inj_succ, Z.pow_succ_r by lia.
    replace (m * (2 * 2 ^ Zpos p)) with (2 * (m * 2 ^ Zpos p)) by lia.
    rewrite shr_1_double; [done |].
    apply Z.mul_nonneg_nonneg; [done |]. apply Z.pow_nonneg. lia.
Qed.

Lemma Zdigits2_mul_pow2 (m k : Z) :
  0 < m -> 0 <= k -> Zdigits2 (m * 2 ^ k) = Zdigits2 m + k.
Proof.
  intros Hm Hk. assert (0 < 2 ^ k) by (apply Z.pow_pos_nonneg; lia).
  rewrite !Zdigits2_log2 by nia. rewrite Z.log2_mul_pow2 by lia. lia.
Qed.

(** Rounding a value that is already representable returns it. *)
Lemma binary_round_aux_exact (s : bool) (m : positive) (e : Z) (k : positive) :
  valid (S754_finite s m e) = true ->
  binary_round_aux prec emax s (Zpos m * 2 ^ Zpos k) (e - Zpos k) loc_Exact
    = S754_finite s m e.
Proof.
  intros Hv. pose proof Hv as Hv'. apply valid_finite in Hv'.
  unfold valid, valid_binary, bounded in Hv. apply andb_true_iff in Hv as [Hc Hb].
  unfold canonical_mantissa in Hc. apply Z.eqb_eq in Hc.
  unfold binary_round_aux, shr_fexp.
  rewrite Zdigits2_mul_pow2 by lia. simpl (Zdigits2 (Z.pos m)).
  replace (Z.pos (digits2_pos m) + Z.pos k + (e - Z.pos k))
    with (Z.pos (digits2_pos m) + e) by lia.
  rewrite Hc. replace (e - (e - Z.pos k)) with (Zpos k) by lia.
  simpl shr_record_of_loc. unfold shr at 1.
  rewrite iter_shr_1_exact by lia.
  simpl loc_of_shr_record. simpl round_nearest_even. simpl shr_m at 1.
  simpl (Zdigits2 (Z.pos m)).
  replace (e - Z.pos k + Z.pos k) with e by lia.
  rewrite Hc, Z.sub_diag. simpl. by rewrite Hb.
Qed.

Lemma fmul_one_l (x : float) : valid x = true -> fmul one x = x.
Proof.
  destruct x as [[]|[]| |s m e]; try done. intros Hv.
  unfold fmul, one, SFmul. simpl xorb.
  etransitivity; [| exact (binary_round_aux_exact s m e 23 Hv)].
  f_equal; lia.
Qed.

Lemma fadd_comm (x y : float) : fadd x y = fadd y x.
Proof.
  destruct x as [[]|[]| |sx mx ex], y as [[]|[]| |sy my ey]; try done.
  unfold fadd, SFadd. rewrite (Z.min_comm ex ey). f_equal. apply Z.add_comm.
Qed.

End Binary32.

(** ** Rounding against a representable bound *)

Section RoundingBounds.

Local Open Scope Z_scope.

Lemma shr_exact (M E : Z) (n : Z) :
  0 <= M -> 0 <= n -> M mod 2 ^ n = 0 ->
  shr (Build_shr_record M false false) E n
    = (Build_shr_record (Z.shiftr M n) false false, E + n).
Proof.
  intros HM Hn Hmod. destruct n as [|p|p]; [| | lia].
  - simpl. by rewrite Z.shiftr_0_r, Z.add_0_r.
  - unfold shr. f_equal.
    assert (Hp : 0 < 2 ^ Z.pos p) by (apply Z.pow_pos_nonneg; lia).
    rewrite Z.shiftr_div_pow2 by lia.
    pose proof (Z.div_mod M (2 ^ Z.pos p) ltac:(lia)) as Hd.
    rewrite Hmod, Z.add_0_r in Hd.
    rewrite Hd at 1. rewrite (Z.mul_comm (2 ^ Z.pos p)).
    apply iter_shr_1_exact. apply Z.div_pos; lia.
Qed.

(** What [binary_round_aux] returns, in terms of the truncated mantissa
    [m'] at the target exponent [e']. *)
Lemma binary_round_aux_cases (s : bool) (M E : Z) (l : location) :
  0 <= M -> E <= fexp prec emax (Zdigits2 M + E) ->
  let e' := fexp prec emax (Zdigits2 M + E) in
  let m' := Z.shiftr M (e' - E) in
  exists m1,
    m' <= m1 <= m' + 1 /\
    (l = loc_Exact -> M mod 2 ^ (e' - E) = 0 -> m1 = m') /\
    ((m1 = 0 /\ binary_round_aux prec emax s M E l = S754_zero s) \/
     (0 < m1 < 16777216 /\
      binary_round_aux prec emax s M E l =
        if e' <=? 104 then S754_finite s (Z.to_pos m1) e' else S754_infinity s) \/
     (m1 = 16777216 /\
      binary_round_aux prec emax s M E l =
        if e' + 1 <=? 104 then S754_finite s 8388608 (e' + 1) else S754_infinity s)).
Proof.
  intros HM HE e' m'.
  pose proof (shiftr_fits M E HM HE) as (Hfit & Hemin & Hnorm).
  cbv zeta in Hfit, Hemin, Hnorm. fold e' in Hfit, Hemin, Hnorm. fold m' in Hfit, Hnorm.
  unfold binary_round_aux.
  pose proof (shr_fexp_spec M E l HM) as [He1 Hm1]. cbv zeta in He1, Hm1.
  rewrite Z.max_r in He1, Hm1 by done. fold e' in He1, Hm1. fold m' in Hm1.
  assert (Hex : l = loc_Exact -> M mod 2 ^ (e' - E) = 0 ->
                loc_of_shr_record (fst (shr_fexp prec emax M E l)) = loc_Exact).
  { intros -> Hmod. unfold shr_fexp. fold e'. simpl shr_record_of_loc.
    rewrite shr_exact by (done || lia). done. }
  destruct (shr_fexp prec emax M E l) as [r1 e1]. simpl in He1, Hm1, Hex. subst e1.
  pose proof (round_nearest_even_bounds (shr_m r1) (loc_of_shr_record r1)) as Hr.
  set (m1 := round_nearest_even (shr_m r1) (loc_of_shr_record r1)) in *.
  rewrite Hm1 in Hr.
  exists m1. split; [done |]. split.
  { intros Hl Hmod. unfold m1. rewrite Hex by done. simpl. done. }
  pose proof (shr_fexp_spec m1 e' loc_Exact ltac:(lia)) as [He2 Hm2]. cbv zeta in He2, Hm2.
  destruct (shr_fexp prec emax m1 e' loc_Exact) as [r2 e2]. simpl in He2, Hm2.
  rewrite fexp_eq in He2, Hm2.
  destruct (Z.eq_dec m1 0) as [Hz | Hnz].
  - left. split; [done |]. rewrite Hz in He2, Hm2. simpl Zdigits2 in He2, Hm2.
    replace (e' `max` ((0 + e' - 24) `max` (-149))) with e' in * by lia.
    rewrite Z.sub_diag, Z.shiftr_0_r in Hm2. by rewrite Hm2.
  - right. destruct (Z.eq_dec m1 16777216) as [Heq | Hne].
    + right. split; [done |]. rewrite Heq in He2, Hm2.
      change (Zdigits2 16777216) with 25 in He2, Hm2.
      replace (e' `max` ((25 + e' - 24) `max` (-149))) with (e' + 1) in * by lia.
      replace (e' + 1 - e') with 1 in Hm2 by lia.
      change (16777216 ≫ 1) with 8388608 in Hm2. rewrite Hm2, He2. done.
    + left. split; [lia |].
      assert (Zdigits2 m1 <= 24)
        by (apply Zdigits2_le; [lia | change (2 ^ 24) with 16777216; lia]).
      replace (e' `max` ((Zdigits2 m1 + e' - 24) `max` (-149))) with e' in * by lia.
      rewrite Z.sub_diag, Z.shiftr_0_r in Hm2. rewrite Hm2, He2.
      destruct m1 as [|p|p]; try lia. done.
Qed.

Lemma Zdigits2_mono (a b : Z) : 0 <= a <= b -> Zdigits2 a <= Zdigits2 b.
Proof.
  intros [Ha Hab]. destruct (Z.eq_dec a 0) as [-> | Hne].
  - apply Zdigits2_nonneg.
  - rewrite !Zdigits2_log2 by lia.
    assert (Z.log2 a <= Z.log2 b) by (apply Z.log2_le_mono; lia). lia.
Qed.

Lemma fexp_mono (a b : Z) : a <= b -> fexp prec emax a <= fexp prec emax b.
Proof. intros Hab. rewrite !fexp_eq. lia. Qed.

Lemma valid_canonical (s : bool) (m : positive) (e : Z) :
  valid (S754_finite s m e) = true ->
  fexp prec emax (Zdigits2 (Zpos m) + e) = e /\ e <= 104.
Proof.
  unfold valid, valid_binary, bounded, canonical_mantissa.
  rewrite andb_true_iff, Z.eqb_eq, Z.leb_le. done.
Qed.

Lemma mag_le_fleb (x : float) (mb : positive) (eb : Z) :
  mag_le x mb eb -> fleb (fabs x) (S754_finite false mb eb) = true.
Proof.
  destruct x as [s| | |s m e]; try done. unfold mag_le, fleb, SFleb. simpl.
  intros [Hlt | [-> Hle]].
  - by rewrite (proj2 (Z.compare_lt_iff e eb) Hlt).
  - rewrite Z.compare_refl. change (Pos.compare_cont Eq m mb) with (Pos.compare m mb).
    destruct (Pos.compare_spec m mb); try done; lia.
Qed.

(** Rounding is monotone against a representable bound: a value that does
    not exceed [mb * 2^eb] rounds to a float that does not exceed it. *)
Lemma binary_round_aux_le (s : bool) (M E : Z) (mb : positive) (eb : Z) :
  0 <= M -> E <= fexp prec emax (Zdigits2 M + E) ->
  valid (S754_finite false mb eb) = true ->
  E <= eb -> M <= Zpos mb * 2 ^ (eb - E) ->
  mag_le (binary_round_aux prec emax s M E loc_Exact) mb eb /\
  has_sign s (binary_round_aux prec emax s M E loc_Exact).
Proof.
  intros HM HE Hv HEb Hle.
  pose proof (valid_canonical _ _ _ Hv) as [Hcan Hb104].
  pose proof (proj1 (valid_finite _ _ _) Hv) as (Heb & Hmb & _).
  destruct (binary_round_aux_cases s M E loc_Exact HM HE) as (m1 & Hm1 & Hex & Hcases).
  cbv zeta in Hm1, Hex, Hcases.
  set (e' := fexp prec emax (Zdigits2 M + E)) in *.
  assert (Hpw : 0 < 2 ^ (eb - E)) by (apply Z.pow_pos_nonneg; lia).
  assert (He'eb : e' <= eb).
  { rewrite <- Hcan. apply fexp_mono.
    assert (Zdigits2 M <= Zdigits2 (Zpos mb * 2 ^ (eb - E)))
      by (apply Zdigits2_mono; lia).
    rewrite Zdigits2_mul_pow2 in * by lia. lia. }
  set (n := e' - E) in *.
  set (R := Zpos mb * 2 ^ (eb - e')).
  assert (Hpn : 0 < 2 ^ n) by (apply Z.pow_pos_nonneg; lia).
  assert (HR : Zpos mb * 2 ^ (eb - E) = R * 2 ^ n).
  { unfold R. rewrite <- Z.mul_assoc, <- Z.pow_add_r by lia. do 2 f_equal. lia. }
  assert (Hm1R : m1 <= R).
  { rewrite Z.shiftr_div_pow2 in * by lia.
    pose proof (Z.div_mod M (2 ^ n) ltac:(lia)) as Hd.
    pose proof (Z.mod_pos_bound M (2 ^ n) ltac:(lia)) as Hmod.
    destruct (Z.eq_dec (M mod 2 ^ n) 0) as [Hz | Hnz].
    - rewrite (Hex eq_refl Hz). nia.
    - assert (M `div` 2 ^ n < R) by nia. lia. }
  destruct Hcases as [[Hz ->] | [[Hr ->] | [Hr ->]]].
  - done.
  - rewrite (proj2 (Z.leb_le e' 104)) by lia. split; [| done]. simpl.
    destruct (Z.eq_dec e' eb) as [Heq | Hne]; [right | left; lia].
    split; [done |]. rewrite Z2Pos.id by lia.
    unfold R in Hm1R. rewrite Heq, Z.sub_diag in Hm1R. lia.
  - assert (e' + 1 <= eb).
    { destruct (Z.eq_dec e' eb) as [Heq | Hne]; [| lia].
      unfold R in Hm1R. rewrite Heq, Z.sub_diag in Hm1R. lia. }
    rewrite (proj2 (Z.leb_le (e' + 1) 104)) by lia. split; [| done]. simpl.
    destruct (Z.eq_dec (e' + 1) eb) as [Heq | Hne]; [right | left; lia].
    split; [done |]. unfold R in Hm1R.
    replace (eb - e') with 1 in Hm1R by lia. lia.
Qed.

Lemma iter_xO_pow2 (m d : positive) : Zpos (Pos.iter xO m d) = Zpos m * 2 ^ Zpos d.
Proof.
  induction d as [|d IH] using Pos.peano_ind.
  - simpl. lia.
  - rewrite Pos.iter_succ, Pos2Z.inj_xO, IH, Pos2Z.inj_succ, Z.pow_succ_r by lia. lia.
Qed.

Lemma shl_align_spec (m : positive) (e e' : Z) :
  e' <= e ->
  snd (shl_align m e e') = e' /\
  Zpos (fst (shl_align m e e')) = Zpos m * 2 ^ (e - e').
Proof.
  intros He. unfold shl_align. destruct (e' - e) as [|d|d] eqn:Hd; try lia; simpl.
  - replace (e - e') with 0 by lia. lia.
  - split; [done |]. rewrite iter_xO_pow2. do 2 f_equal. lia.
Qed.

Lemma binary_round_le (s : bool) (p : positive) (e : Z) (mb : positive) (eb : Z) :
  valid (S754_finite false mb eb) = true ->
  e <= eb -> Zpos p <= Zpos mb * 2 ^ (eb - e) ->
  mag_le (binary_round prec emax s p e) mb eb /\
  has_sign s (binary_round prec emax s p e).
Proof.
  intros Hv He Hle. unfold binary_round.
  set (f := fexp prec emax (Zpos (digits2_pos p) + e)).
  destruct (Z_le_gt_dec f e) as [Hfe | Hfe].
  - pose proof (shl_align_spec p e f Hfe) as [H2 H1].
    destruct (shl_align p e f) as [mz ez]. simpl in H1, H2. subst ez.
    assert (Hp : 0 < 2 ^ (e - f)) by (apply Z.pow_pos_nonneg; lia).
    apply binary_round_aux_le; [lia | | done | lia |].
    + rewrite H1, Zdigits2_mul_pow2 by lia. simpl Zdigits2.
      replace (Z.pos (digits2_pos p) + (e - f) + f) with (Z.pos (digits2_pos p) + e) by lia.
      fold f. lia.
    + rewrite H1. replace (eb - f) with ((eb - e) + (e - f)) by lia.
      rewrite Z.pow_add_r by lia. nia.
  - unfold shl_align. destruct (f - e) as [|d|d] eqn:Hd; try lia.
    apply binary_round_aux_le; try done. simpl Zdigits2. fold f. lia.
Qed.

Lemma fmul_precondition (mx my : positive) (ex ey : Z) (sx sy : bool) :
  valid (S754_finite sx mx ex) = true -> valid (S754_finite sy my ey) = true ->
  ex + ey <= fexp prec emax (Zdigits2 (Zpos (mx * my)) + (ex + ey)).
Proof.
  intros Hx Hy. apply valid_finite in Hx, Hy.
  rewrite fexp_eq. rewrite Pos2Z.inj_mul.
  destruct (Z.eq_dec ex (-149)) as [Hex | Hex], (Z.eq_dec ey (-149)) as [Hey | Hey];
    [lia | | |].
  all: assert (24 <= Zdigits2 (Zpos mx * Zpos my))
         by (apply Zdigits2_ge; [lia | change (2 ^ (24 - 1)) with 8388608; nia]);
       lia.
Qed.

(** A canonical float of magnitude at most one has mantissa at most
    [2^(-e)]. *)
Lemma le_one_mantissa (s : bool) (m : positive) (e : Z) :
  valid (S754_finite s m e) = true ->
  mag_le (S754_finite s m e) 8388608 (-23) ->
  e <= -23 /\ Zpos m <= 2 ^ (- e).
Proof.
  intros Hv Hle. apply valid_finite in Hv. simpl in Hle.
  destruct Hle as [Hlt | [-> Hle]]; [| split; [lia | exact Hle]].
  split; [lia |].
  assert (2 ^ 24 <= 2 ^ (- e)) by (apply Z.pow_le_mono_r; lia).
  change (2 ^ 24) with 16777216 in *. lia.
Qed.

(** [|x| <= 1] and a finite non-negative [r] give [|x * r| <= r]. *)
Lemma fmul_le_bound (x : float) (mr : positive) (er : Z) :
  valid x = true -> mag_le x 8388608 (-23) ->
  valid (S754_finite false mr er) = true ->
  mag_le (fmul x (S754_finite false mr er)) mr er.
Proof.
  intros Hvx Hx Hvr. destruct x as [sx| | |sx mx ex]; simpl in Hx; try done.
  destruct (le_one_mantissa sx mx ex Hvx Hx) as [Hex Hmx].
  unfold fmul, SFmul.
  apply binary_round_aux_le; [lia | | done | lia |].
  - by apply (fmul_precondition mx mr ex er sx false).
  - replace (er - (ex + er)) with (- ex) by lia. rewrite Pos2Z.inj_mul. nia.
Qed.

Lemma has_sign_nonneg (x : float) (mb : positive) (eb : Z) :
  has_sign false x -> mag_le x mb eb -> is_nonneg x.
Proof. by destruct x. Qed.

Lemma fmul_two_le (u : float) :
  valid u = true -> is_nonneg u -> mag_le u 8388608 (-23) ->
  valid (fmul u two) = true /\ is_nonneg (fmul u two) /\
  mag_le (fmul u two) 8388608 (-22).
Proof.
  intros Hv Hs Hle. split; [by apply fmul_valid |].
  destruct u as [su| | |su mu eu]; simpl in Hle; try done.
  - simpl in Hs. subst su.
    destruct (le_one_mantissa false mu eu Hv Hle) as [Heu Hmu].
    unfold fmul, two, SFmul. simpl xorb.
    assert (Hp : 0 < 2 ^ (- eu)) by (apply Z.pow_pos_nonneg; lia).
    assert (Hpre : eu + -22 <=
              fexp prec emax (Zdigits2 (Zpos (mu * 8388608)) + (eu + -22)))
      by (by apply (fmul_precondition mu 8388608 eu (-22) false false)).
    assert (Hbound : Zpos (mu * 8388608) <= 8388608 * 2 ^ (-22 - (eu + -22))).
    { replace (-22 - (eu + -22)) with (- eu) by lia. rewrite Pos2Z.inj_mul. nia. }
    destruct (binary_round_aux_le false (Zpos (mu * 8388608)) (eu + -22) 8388608 (-22))
      as [H1 H2]; [lia | done | done | lia | done |].
    split; [by eapply has_sign_nonneg | done].
Qed.

Lemma fsub_one_le (t : float) :
  valid t = true -> is_nonneg t -> mag_le t 8388608 (-22) ->
  valid (fsub t one) = true /\ mag_le (fsub t one) 8388608 (-23).
Proof.
  intros Hv Hs Hle. split; [by apply fsub_valid |].
  destruct t as [st| | |st mt et]; simpl in Hle; try done.
  - simpl. right. done.
  - simpl in Hs. subst st. pose proof (proj1 (valid_finite _ _ _) Hv) as (Het & Hmt & _).
    unfold fsub, one, SFsub. simpl cond_Zopp.
    set (ez := Z.min et (-23)).
    destruct (shl_align_spec mt et ez ltac:(lia)) as [_ HA].
    destruct (shl_align_spec 8388608 (-23) ez ltac:(lia)) as [_ HB].
    rewrite HA, HB.
    set (A := Zpos mt * 2 ^ (et - ez)). set (B := 8388608 * 2 ^ (-23 - ez)).
    assert (HpB : 0 < 2 ^ (-23 - ez)) by (apply Z.pow_pos_nonneg; lia).
    assert (HpA : 0 < 2 ^ (et - ez)) by (apply Z.pow_pos_nonneg; lia).
    assert (HA2 : A <= 2 * B).
    { unfold A, B. simpl in Hle. destruct Hle as [Hlt | [-> Hle]].
      - replace ez with et by lia.
        rewrite Z.sub_diag, Z.mul_1_r.
        assert (2 ^ 0 <= 2 ^ (-23 - et)) by (apply Z.pow_le_mono_r; lia).
        change (2 ^ 0) with 1 in *. lia.
      - replace ez with (-23) by lia. simpl. lia. }
    assert (HAB : - B <= A - B <= B) by lia.
    destruct (A - B) as [|p|p] eqn:Hd; simpl binary_normalize.
    + done.
    + apply binary_round_le; [done | lia |]. fold B. lia.
    + apply binary_round_le; [done | lia |]. fold B. lia.
Qed.

(** Away from the subnormal range and from overflow, rounding returns a
    finite float within one binade of the target exponent. *)
Lemma binary_round_aux_finite (s : bool) (M E : Z) (l : location) :
  0 <= M -> E <= fexp prec emax (Zdigits2 M + E) ->
  -149 < fexp prec emax (Zdigits2 M + E) < 104 ->
  exists m2 e2,
    binary_round_aux prec emax s M E l = S754_finite s m2 e2 /\
    valid (S754_finite s m2 e2) = true /\
    fexp prec emax (Zdigits2 M + E) <= e2 <= fexp prec emax (Zdigits2 M + E) + 1.
Proof.
  intros HM HE Hrange.
  pose proof (binary_round_aux_valid s M E l HM HE) as Hv.
  pose proof (shiftr_fits M E HM HE) as (Hfit & Hemin & Hnorm). cbv zeta in Hfit, Hnorm.
  destruct (binary_round_aux_cases s M E l HM HE) as (m1 & Hm1 & _ & Hcases).
  cbv zeta in Hm1, Hcases.
  set (e' := fexp prec emax (Zdigits2 M + E)) in *.
  destruct Hcases as [[Hz _] | [[Hr Heq] | [Hr Heq]]]; [lia | |].
  - rewrite (proj2 (Z.leb_le e' 104)) in Heq by lia.
    rewrite Heq in Hv |- *. eexists _, _. split; [done |]. split; [done | lia].
  - rewrite (proj2 (Z.leb_le (e' + 1) 104)) in Heq by lia.
    rewrite Heq in Hv |- *. eexists _, _. split; [done |]. split; [done | lia].
Qed.

Lemma Zdigits2_24 (m : Z) : 8388608 <= m < 16777216 -> Zdigits2 m = 24.
Proof.
  intros Hm.
  assert (Zdigits2 m <= 24) by (apply Zdigits2_le; [lia | change (2 ^ 24) with 16777216; lia]).
  assert (24 <= Zdigits2 m) by (apply Zdigits2_ge; [lia | change (2 ^ (24 - 1)) with 8388608; lia]).
  lia.
Qed.

(** [(float) n] for a positive [int]. *)
Lemma of_int_finite (n : Z) :
  1 <= n < 2147483648 ->
  exists my ey,
    of_int n = S754_finite false my ey /\
    valid (S754_finite false my ey) = true /\ -23 <= ey <= 8.
Proof.
  intros Hn. destruct n as [|p|p]; try lia.
  unfold of_int. simpl binary_normalize. unfold binary_round.
  set (d := Zpos (digits2_pos p)).
  assert (Hd : 1 <= d <= 31).
  { change d with (Zdigits2 (Zpos p)). split.
    - apply Zdigits2_ge; [lia | simpl; lia].
    - apply Zdigits2_le; [lia | change (2 ^ 31) with 2147483648; lia]. }
  assert (Hf : fexp prec emax (d + 0) = d - 24) by (rewrite fexp_eq; lia).
  rewrite Hf.
  destruct (Z_le_gt_dec (d - 24) 0) as [Hle | Hgt].
  - pose proof (shl_align_spec p 0 (d - 24) Hle) as [H2 H1].
    destruct (shl_align p 0 (d - 24)) as [mz ez]. simpl in H1, H2. subst ez.
    assert (Hp : 0 < 2 ^ (0 - (d - 24))) by (apply Z.pow_pos_nonneg; lia).
    assert (Hdz : Zdigits2 (Zpos mz) + (d - 24) = d + 0).
    { rewrite H1, Zdigits2_mul_pow2 by lia. fold d. simpl Zdigits2. fold d. lia. }
    destruct (binary_round_aux_finite false (Zpos mz) (d - 24) loc_Exact)
      as (m2 & e2 & Heq & Hv & He2); [lia | rewrite Hdz, Hf; lia | rewrite Hdz, Hf; lia |].
    rewrite Hdz, Hf in He2. exists m2, e2. split; [done |]. split; [done | lia].
  - unfold shl_align. destruct (d - 24 - 0) as [|k|k] eqn:Hk; try lia.
    destruct (binary_round_aux_finite false (Zpos p) 0 loc_Exact)
      as (m2 & e2 & Heq & Hv & He2);
      [lia | simpl Zdigits2; fold d; rewrite Hf; lia
       | simpl Zdigits2; fold d; rewrite Hf; lia |].
    simpl Zdigits2 in He2. fold d in He2. rewrite Hf in He2.
    exists m2, e2. split; [done |]. split; [done | lia].
Qed.

(** [6.0f / y] for a normal [y >= 1] of moderate size. *)
Lemma fdiv_six_finite (my : positive) (ey : Z) :
  valid (S754_finite false my ey) = true -> -23 <= ey <= 8 ->
  exists mq eq,
    fdiv six (S754_finite false my ey) = S754_finite false mq eq /\
    valid (S754_finite false mq eq) = true /\ -53 <= eq <= -20.
Proof.
  intros Hv Hey. pose proof (proj1 (valid_finite _ _ _) Hv) as (_ & Hmy & Hnorm).
  assert (Hmy' : 8388608 <= Zpos my) by lia.
  unfold fdiv, six, SFdiv, SFdiv_core_binary. simpl xorb.
  rewrite (Zdigits2_24 (Zpos my)) by lia.
  change (Zdigits2 12582912) with 24.
  replace (24 + -21 - (24 + ey)) with (-21 - ey) by lia.
  rewrite fexp_eq.
  replace (Z.min (Z.max (-21 - ey - 24) (-149)) (-21 - ey)) with (-45 - ey) by lia.
  replace (-21 - ey - (-45 - ey)) with 24 by lia.
  change (Z.shiftl 12582912 24) with 211106232532992.
  pose proof (Z.div_mod 211106232532992 (Zpos my) ltac:(lia)) as Hdm.
  pose proof (Z.mod_pos_bound 211106232532992 (Zpos my) ltac:(lia)) as Hmod.
  unfold Z.div, Z.modulo in Hdm, Hmod.
  destruct (Z.div_eucl 211106232532992 (Zpos my)) as [q r].
  assert (Hq : 8388608 <= q < 33554432) by nia.
  assert (Hdq : 24 <= Zdigits2 q <= 25).
  { split.
    - apply Zdigits2_ge; [lia | change (2 ^ (24 - 1)) with 8388608; lia].
    - apply Zdigits2_le; [lia | change (2 ^ 25) with 33554432; lia]. }
  destruct (binary_round_aux_finite false q (-45 - ey) (new_location (Zpos my) r))
    as (m2 & e2 & Heq & Hv2 & He2); [lia | rewrite fexp_eq; lia | rewrite fexp_eq; lia |].
  rewrite fexp_eq in He2.
  exists m2, e2. split; [done |]. split; [done | lia].
Qed.

(** [sqrtf q] for a normal positive [q] of moderate size. *)
Lemma sqrtf_finite (mq : positive) (eq : Z) :
  valid (S754_finite false mq eq) = true -> -53 <= eq <= -20 ->
  exists mr er,
    sqrtf (S754_finite false mq eq) = S754_finite false mr er /\
    valid (S754_finite false mr er) = true.
Proof.
  intros Hv Heq. pose proof (proj1 (valid_finite _ _ _) Hv) as (_ & Hmq & Hnorm).
  assert (Hmq' : 8388608 <= Zpos mq) by lia.
  unfold sqrtf, SFsqrt, SFsqrt_core_binary.
  rewrite (Zdigits2_24 (Zpos mq)) by lia.
  rewrite !Z.div2_div, fexp_eq.
  pose proof (Z.div_mod (24 + eq + 1) 2 ltac:(lia)) as Hda.
  pose proof (Z.mod_pos_bound (24 + eq + 1) 2 ltac:(lia)) as Hma.
  pose proof (Z.div_mod eq 2 ltac:(lia)) as Hdb.
  pose proof (Z.mod_pos_bound eq 2 ltac:(lia)) as Hmb.
  set (a := (24 + eq + 1) / 2) in *. set (b := eq / 2) in *.
  replace (Z.min (Z.max (a - 24) (-149)) b) with (a - 24) by lia.
  assert (Hs : eq - 2 * (a - 24) = 23 \/ eq - 2 * (a - 24) = 24) by lia.
  assert (Hm' : exists m', 70368744177664 <= m' < 281474976710656 /\
            match eq - 2 * (a - 24) with
            | Z.pos _ => Z.shiftl (Zpos mq) (eq - 2 * (a - 24))
            | 0 => Zpos mq
            | Z.neg _ => 0
            end = m').
  { destruct Hs as [-> | ->]; eexists; (split; [| reflexivity]);
      rewrite Z.shiftl_mul_pow2 by lia;
      [change (2 ^ 23) with 8388608 | change (2 ^ 24) with 16777216]; lia. }
  destruct Hm' as (m' & Hm' & ->).
  pose proof (Z.sqrtrem_spec m' ltac:(lia)) as Hsq.
  destruct (Z.sqrtrem m') as [q r].
  assert (Hq : 8388608 <= q < 16777216) by nia.
  match goal with |- context [binary_round_aux _ _ _ _ _ ?l] => set (loc := l) end.
  destruct (binary_round_aux_finite false q (a - 24) loc)
    as (m2 & e2 & Hr & Hv2 & He2);
    [lia | rewrite Zdigits2_24, fexp_eq by lia; lia
     | rewrite Zdigits2_24, fexp_eq by lia; lia |].
  exists m2, e2. done.
Qed.

(** The radius [sqrtf(6.0f / size)] of the initialiser is a finite,
    non-negative binary32 value for every positive [int] size. *)
Lemma init_radius_finite (n : Z) :
  1 <= n < 2147483648 ->
  exists mr er,
    sqrtf (fdiv six (of_int n)) = S754_finite false mr er /\
    valid (S754_finite false mr er) = true.
Proof.
  intros Hn.
  destruct (of_int_finite n Hn) as (my & ey & -> & Hvy & Hey).
  destruct (fdiv_six_finite my ey Hvy Hey) as (mq & eq & -> & Hvq & Heq).
  by apply sqrtf_finite.
Qed.

End RoundingBounds.

(** ** Loops and launches *)

Lemma for_loop_inv {St} (P : nat -> St -> Prop) (n start : nat)
    (body : nat -> St -> option St) (s : St) :
  P start s ->
  (forall i s, start <= i < start + n -> P i s ->
     exists s', body i s = Some s' /\ P (S i) s') ->
  exists s', for_loop n start body s = Some s' /\ P (start + n) s'.
Proof.
  revert start s. induction n as [|n IH]; intros start s H0 Hstep; simpl.
  - exists s. by rewrite Nat.add_0_r.
  - destruct (Hstep start s) as (s1 & Hb & H1); [lia | done |].
    rewrite Hb. simpl.
    destruct (IH (S start) s1) as (s2 & Hl & H2); [done | |].
    + intros i s' Hi. apply Hstep. lia.
    + exists s2. split; [done |]. by replace (start + S n) with (S start + n) by lia.
Qed.

Lemma launch_inv {St} (P : nat -> St -> Prop) (numBlocks blockSize : nat)
    (kernel : nat -> nat -> nat -> St -> option St) (s : St) :
  P 0 s ->
  (forall b t s, b < numBlocks -> t < blockSize -> P (b * blockSize + t) s ->
     exists s', kernel b blockSize t s = Some s' /\ P (S (b * blockSize + t)) s') ->
  exists s', launch numBlocks blockSize kernel s = Some s' /\
             P (numBlocks * blockSize) s'.
Proof.
  intros H0 Hstep. unfold launch.
  destruct (for_loop_inv (λ b s, P (b * blockSize) s) numBlocks 0
              (λ blockIdx s, for_loop blockSize 0
                 (λ threadIdx s, kernel blockIdx blockSize threadIdx s) s) s)
    as (s' & Hl & Hs'); [done | | by exists s'].
  intros b s1 Hb Hs1.
  destruct (for_loop_inv (λ t s, P (b * blockSize + t) s) blockSize 0
              (λ threadIdx s, kernel b blockSize threadIdx s) s1)
    as (s2 & Hl & Hs2).
  - by rewrite Nat.add_0_r.
  - intros t s2 Ht Hs2.
    replace (b * blockSize + S t) with (S (b * blockSize + t)) by lia.
    apply Hstep; [lia | lia | done].
  - exists s2. split; [done |].
    by replace (S b * blockSize) with (b * blockSize + (0 + blockSize)) by lia.
Qed.

(** The grid computed by the callers covers every index below [size]. *)
Lemma grid_covers (size : nat) : size <= (size + 256 - 1) / 256 * 256.
Proof.
  pose proof (Nat.div_mod (size + 256 - 1) 256 ltac:(lia)) as Hd.
  pose proof (Nat.mod_upper_bound (size + 256 - 1) 256 ltac:(lia)) as Hm.
  lia.
Qed.

Lemma store_Some {A} (b : list A) (i : nat) (v : A) :
  i < length b -> store b i v = Some (<[i := v]> b).
Proof. intros Hi. unfold store. by rewrite decide_True. Qed.

(** ** [update_params] *)

(** The parameter buffer after the threads with global index below [n]
    have run. *)
Lemma update_params_kernel_launch (grads params : buffer) (size : nat) (lr : float)
    (numBlocks blockSize : nat) :
  size <= length params -> size <= length grads ->
  size <= numBlocks * blockSize ->
  exists params',
    launch numBlocks blockSize (update_params_kernel grads size lr) params
      = Some params' /\
    length params' = length params /\
    forall i, params' !! i =
      if decide (i < size)
      then p ← params !! i; g ← grads !! i; Some (fsub p (fmul lr g))
      else params !! i.
Proof.
  intros Hp Hg Hgrid.
  destruct (launch_inv
    (λ n (ps : buffer), length ps = length params /\
       forall i, ps !! i =
         if decide (i < size `min` n)
         then p ← params !! i; g ← grads !! i; Some (fsub p (fmul lr g))
         else params !! i)
    numBlocks blockSize (update_params_kernel grads size lr) params)
    as (ps & Hl & Hlen & Hps).
  - split; [done |]. intros i. by rewrite decide_False by lia.
  - intros b t ps _ _ [Hlen Hps]. unfold update_params_kernel.
    set (idx := b * blockSize + t) in *.
    destruct (decide (idx < size)) as [Hidx | Hidx].
    + destruct (lookup_lt_is_Some_2 params idx) as [p Hpi]; [lia |].
      destruct (lookup_lt_is_Some_2 grads idx) as [g Hgi]; [lia |].
      unfold load. rewrite Hps, decide_False, Hpi, Hgi by lia. simpl.
      rewrite store_Some by lia.
      eexists. split; [done |]. split; [by rewrite length_insert |].
      intros i. destruct (decide (i = idx)) as [-> | Hne].
      * rewrite list_lookup_insert_eq, decide_True, Hpi by lia. simpl.
        by rewrite Hgi.
      * rewrite list_lookup_insert_ne, Hps by done.
        destruct (decide (i < size `min` idx)), (decide (i < size `min` S idx));
          try done; lia.
    + exists ps. split; [done |]. split; [done |].
      intros i. rewrite Hps.
      destruct (decide (i < size `min` idx)), (decide (i < size `min` S idx));
        try done; lia.
  - exists ps. split; [done |]. split; [done |].
    intros i. rewrite Hps.
    destruct (decide (i < size `min` (numBlocks * blockSize))), (decide (i < size));
      try done; lia.
Qed.

Lemma update_params_kernel_launch_eq (grads params : buffer) (size : nat) (lr : float) :
  length params = size -> length grads = size ->
  launch ((size + 256 - 1) / 256) 256 (update_params_kernel grads size lr) params
    = Some (sgd_step lr params grads).
Proof.
  intros Hp Hg.
  destruct (update_params_kernel_launch grads params size lr
              ((size + 256 - 1) / 256) 256) as (ps & -> & Hlen & Hps);
    [lia | lia | apply grid_covers |].
  f_equal. apply list_eq. intros i. rewrite Hps. unfold sgd_step.
  rewrite lookup_zip_with.
  destruct (decide (i < size)) as [Hi | Hi]; [done |].
  rewrite (lookup_ge_None_2 params) by lia. done.
Qed.

Lemma update_params_eq (L : FCLayer) (lr : float) :
  well_sized L ->
  update_params L lr =
    Some (mkFCLayer (input_size L) (output_size L)
            (sgd_step lr (weights L) (grad_weights L))
            (sgd_step lr (bias L) (grad_bias L))
            (grad_weights L) (grad_bias L)).
Proof.
  intros (Hw & Hb & Hgw & Hgb). unfold update_params. cbv zeta.
  rewrite (update_params_kernel_launch_eq (grad_weights L) (weights L)
             (input_size L * output_size L) lr) by done.
  rewrite (update_params_kernel_launch_eq (grad_bias L) (bias L)
             (output_size L) lr) by done.
  done.
Qed.

Lemma sgd_step_length (lr : float) (params grads : buffer) :
  length grads = length params -> length (sgd_step lr params grads) = length params.
Proof. intros H. unfold sgd_step. rewrite length_zip_with. lia. Qed.

Lemma sgd_step_lookup (lr : float) (params grads : buffer) (i : nat) (p g : float) :
  params !! i = Some p -> grads !! i = Some g ->
  sgd_step lr params grads !! i = Some (fsub p (fmul lr g)).
Proof.
  intros Hp Hg. unfold sgd_step. rewrite lookup_zip_with, Hp. simpl. by rewrite Hg.
Qed.

(** Claim C6.  For every layer whose buffers have their allocated sizes,
    with sizes for which the two grid computations
    [input_size * output_size + 256] and [output_size + 256] fit an [int],
    and every learning rate, [update_params] terminates without an invalid
    access, keeps both buffer sizes, and sets every weight element [i] to
    [weights[i] - lr * grad_weights[i]] and every bias element [i] to
    [bias[i] - lr * grad_bias[i]], each product and difference rounded to
    binary32 as written in the kernel. *)
Theorem update_params_elementwise (L : FCLayer) (lr : float) :
  well_sized L ->
  (Z.of_nat (input_size L * output_size L) + 256 <= 2147483647)%Z ->
  (Z.of_nat (output_size L) + 256 <= 2147483647)%Z ->
  exists L',
    update_params L lr = Some L' /\
    length (weights L') = input_size L * output_size L /\
    length (bias L') = output_size L /\
    (forall i, i < input_size L * output_size L ->
       exists w g, weights L !! i = Some w /\ grad_weights L !! i = Some g /\
                   weights L' !! i = Some (fsub w (fmul lr g))) /\
    (forall i, i < output_size L ->
       exists b g, bias L !! i = Some b /\ grad_bias L !! i = Some g /\
                   bias L' !! i = Some (fsub b (fmul lr g))).
Proof.
  intros HL _ _. pose proof HL as (Hw & Hb & Hgw & Hgb).
  eexists. split; [by apply update_params_eq |]. simpl.
  split; [rewrite sgd_step_length; lia |].
  split; [rewrite sgd_step_length; lia |].
  split.
  - intros i Hi.
    destruct (lookup_lt_is_Some_2 (weights L) i) as [w Hwi]; [lia |].
    destruct (lookup_lt_is_Some_2 (grad_weights L) i) as [g Hgi]; [lia |].
    exists w, g. split; [done |]. split; [done |]. by apply sgd_step_lookup.
  - intros i Hi.
    destruct (lookup_lt_is_Some_2 (bias L) i) as [b Hbi]; [lia |].
    destruct (lookup_lt_is_Some_2 (grad_bias L) i) as [g Hgi]; [lia |].
    exists b, g. split; [done |]. split; [done |]. by apply sgd_step_lookup.
Qed.

Lemma sample_layer_well_sized : well_sized sample_layer.
Proof. repeat split. Qed.

Lemma update_params_elementwise_witness :
  (well_sized sample_layer /\
   (Z.of_nat (input_size sample_layer * output_size sample_layer) + 256
      <= 2147483647)%Z /\
   (Z.of_nat (output_size sample_layer) + 256 <= 2147483647)%Z) /\
  exists L',
    update_params sample_layer two = Some L' /\
    length (weights L') = 2 /\
    length (bias L') = 1 /\
    (forall i, i < 2 ->
       exists w g, weights sample_layer !! i = Some w /\
                   grad_weights sample_layer !! i = Some g /\
                   weights L' !! i = Some (fsub w (fmul two g))) /\
    (forall i, i < 1 ->
       exists b g, bias sample_layer !! i = Some b /\
                   grad_bias sample_layer !! i = Some g /\
                   bias L' !! i = Some (fsub b (fmul two g))).
Proof.
  assert (H1 : well_sized sample_layer) by (repeat split).
  assert (H2 : (Z.of_nat (input_size sample_layer * output_size sample_layer) + 256
                  <= 2147483647)%Z) by (simpl; lia).
  assert (H3 : (Z.of_nat (output_size sample_layer) + 256 <= 2147483647)%Z)
    by (simpl; lia).
  split; [done |].
  exact (update_params_elementwise sample_layer two H1 H2 H3).
Defined.

(** Claim C9.  For every layer whose buffers have their allocated sizes and
    every learning rate, [update_params] returns a layer whose
    [grad_weights] and [grad_bias] buffers (and sizes) are those it was
    given: the gradients are read, never written or cleared. *)
Theorem update_params_keeps_gradients (L : FCLayer) (lr : float) :
  well_sized L ->
  exists L',
    update_params L lr = Some L' /\
    grad_weights L' = grad_weights L /\
    grad_bias L' = grad_bias L /\
    input_size L' = input_size L /\
    output_size L' = output_size L.
Proof.
  intros HL. eexists. split; [by apply update_params_eq |]. done.
Qed.

Lemma update_params_keeps_gradients_witness :
  well_sized sample_layer /\
  exists L',
    update_params sample_layer two = Some L' /\
    grad_weights L' = grad_weights sample_layer /\
    grad_bias L' = grad_bias sample_layer /\
    input_size L' = input_size sample_layer /\
    output_size L' = output_size sample_layer.
Proof.
  split; [repeat split |].
  apply (update_params_keeps_gradients sample_layer two). repeat split.
Defined.

(** *** A zero learning rate *)

Lemma fmul_zero_finite (lr g : float) :
  is_zero lr = true -> is_finite g = true -> is_zero (fmul lr g) = true.
Proof. by destruct lr, g. Qed.

Lemma fsub_zero_r (p z : float) :
  is_zero z = true -> p <> nzero -> fsub p z = p.
Proof.
  destruct z as [sz | | |]; try done. intros _ Hp.
  by destruct p as [[] | | |], sz.
Qed.

Lemma sgd_step_zero_rate (lr : float) (params grads : buffer) :
  is_zero lr = true ->
  length grads = length params ->
  Forall (λ g, is_finite g = true) grads ->
  Forall (λ p, p <> nzero) params ->
  sgd_step lr params grads = params.
Proof.
  intros Hlr Hlen Hg Hp. unfold sgd_step.
  revert grads Hlen Hg. induction Hp as [|p params Hp0 Hp IH]; intros grads Hlen Hg.
  - by destruct grads.
  - destruct Hg as [|g grads Hg0 Hg]; [done |]. simpl.
    rewrite fsub_zero_r; [| by apply fmul_zero_finite | done].
    f_equal. apply IH; [by injection Hlen | done].
Qed.

(** Claim C7, as stated, fails.  On a layer of allocated sizes,
    [update_params(0.0f)] turns the weight [1.0f], whose gradient is NaN,
    into NaN, and the bias [-0.0f], whose gradient is [-1.0f], into
    [+0.0f]: neither buffer keeps its contents. *)
Lemma update_params_zero_rate_not_noop :
  well_sized nan_gradient_layer /\
  exists L',
    update_params nan_gradient_layer zero = Some L' /\
    weights L' = [nan] /\ weights L' <> weights nan_gradient_layer /\
    bias L' = [zero] /\ bias L' <> bias nan_gradient_layer.
Proof.
  split; [repeat split |].
  eexists. split; [vm_compute; reflexivity |]. simpl. repeat split; discriminate.
Qed.

(** Claim C7, amended.  For every layer of allocated sizes in which every
    gradient entry is finite (neither NaN nor an infinity) and no weight or
    bias entry is [-0.0f], [update_params] with a zero learning rate
    ([+0.0f] or [-0.0f]) returns the layer unchanged: weights and bias keep
    their values entry by entry. *)
Theorem update_params_zero_rate (L : FCLayer) (lr : float) :
  well_sized L ->
  is_zero lr = true ->
  Forall (λ g, is_finite g = true) (grad_weights L) ->
  Forall (λ g, is_finite g = true) (grad_bias L) ->
  Forall (λ p, p <> nzero) (weights L) ->
  Forall (λ p, p <> nzero) (bias L) ->
  update_params L lr = Some L.
Proof.
  intros HL Hlr Hgw Hgb Hw Hb. pose proof HL as (Hlw & Hlb & Hlgw & Hlgb).
  rewrite update_params_eq by done.
  rewrite !sgd_step_zero_rate by (done || lia). by destruct L.
Qed.

Lemma update_params_zero_rate_witness :
  (well_sized sample_layer /\
   is_zero zero = true /\
   Forall (λ g, is_finite g = true) (grad_weights sample_layer) /\
   Forall (λ g, is_finite g = true) (grad_bias sample_layer) /\
   Forall (λ p, p <> nzero) (weights sample_layer) /\
   Forall (λ p, p <> nzero) (bias sample_layer)) /\
  update_params sample_layer zero = Some sample_layer.
Proof.
  assert (Hs : well_sized sample_layer) by (repeat split).
  assert (Hz : is_zero zero = true) by reflexivity.
  assert (Hgw : Forall (λ g, is_finite g = true) (grad_weights sample_layer))
    by (repeat constructor).
  assert (Hgb : Forall (λ g, is_finite g = true) (grad_bias sample_layer))
    by (repeat constructor).
  assert (Hw : Forall (λ p, p <> nzero) (weights sample_layer))
    by (repeat constructor; discriminate).
  assert (Hb : Forall (λ p, p <> nzero) (bias sample_layer))
    by (repeat constructor; discriminate).
  split; [done |].
  exact (update_params_zero_rate sample_layer zero Hs Hz Hgw Hgb Hw Hb).
Defined.

(** ** Loops of stores *)

Lemma writes_upto_None (Wi : nat -> nat -> option float) (n idx : nat) :
  (forall i, i < n -> Wi i idx = None) -> writes_upto Wi n idx = None.
Proof.
  induction n as [|n IH]; intros H; simpl; [done |].
  rewrite H by lia. apply IH. intros i Hi. apply H. lia.
Qed.

Lemma writes_upto_last (Wi : nat -> nat -> option float) (n idx i : nat) (v : float) :
  i < n -> Wi i idx = Some v ->
  (forall i', i < i' < n -> Wi i' idx = None) ->
  writes_upto Wi n idx = Some v.
Proof.
  induction n as [|n IH]; intros Hi Hv Hlater; simpl; [lia |].
  destruct (decide (i = n)) as [-> | Hne]; [by rewrite Hv |].
  rewrite Hlater by lia. apply IH; [lia | done |]. intros i' Hi'. apply Hlater. lia.
Qed.

Lemma writes_refl (C : buffer) : writes (λ _, None) C C.
Proof. by split. Qed.

Lemma writes_ext (W W' : nat -> option float) (C C' : buffer) :
  (forall idx, W idx = W' idx) -> writes W C C' -> writes W' C C'.
Proof. intros HW [Hlen H]. split; [done |]. intros idx. by rewrite H, HW. Qed.

Lemma store_writes (C : buffer) (i : nat) (v : float) :
  i < length C ->
  exists C', store C i v = Some C' /\
             writes (λ idx, if decide (idx = i) then Some v else None) C C'.
Proof.
  intros Hi. rewrite store_Some by done. eexists. split; [done |].
  split; [by rewrite length_insert |].
  intros idx. destruct (decide (idx = i)) as [-> | Hne]; simpl.
  - by rewrite list_lookup_insert_eq.
  - by rewrite list_lookup_insert_ne.
Qed.

(** A loop whose [i]-th step performs the writes [Wi i], whatever the
    buffer holds, performs [writes_upto Wi n] in [n] steps. *)
Lemma for_loop_writes (n : nat) (body : nat -> buffer -> option buffer)
    (Wi : nat -> nat -> option float) (C : buffer) :
  (forall i C', i < n -> length C' = length C ->
     exists C'', body i C' = Some C'' /\ writes (Wi i) C' C'') ->
  exists C', for_loop n 0 body C = Some C' /\ writes (writes_upto Wi n) C C'.
Proof.
  intros Hbody.
  destruct (for_loop_inv (λ i C', writes (writes_upto Wi i) C C') n 0 body C)
    as (C' & Hl & HC'); [apply writes_refl | | by exists C'].
  intros i C1 Hi [Hlen H1].
  destruct (Hbody i C1) as (C2 & Hb & Hlen2 & H2); [lia | done |].
  exists C2. split; [done |]. split; [congruence |].
  intros idx. rewrite H2. simpl. destruct (Wi i idx); simpl; [done | apply H1].
Qed.

(** *** [cudaMemcpy] and [cudaMemset] *)

Lemma cudaMemcpy_writes (dst : buffer) (dst_off : nat) (src : buffer) (count : nat) :
  count <= length src -> dst_off + count <= length dst ->
  exists dst',
    cudaMemcpy dst dst_off src count = Some dst' /\
    writes (λ idx, if decide (dst_off <= idx < dst_off + count)
                   then src !! (idx - dst_off) else None) dst dst'.
Proof.
  intros Hsrc Hdst. unfold cudaMemcpy.
  destruct (for_loop_writes count
              (λ k dst, v ← load src k; store dst (dst_off + k) v)
              (λ k idx, if decide (idx = dst_off + k) then src !! k else None) dst)
    as (dst' & Hl & Hw).
  - intros k C' Hk Hlen.
    destruct (lookup_lt_is_Some_2 src k) as [v Hv]; [lia |].
    unfold load. rewrite Hv. simpl.
    destruct (store_writes C' (dst_off + k) v) as (C'' & Hs & Hw); [lia |].
    exists C''. split; [done |]. eapply writes_ext; [| exact Hw].
    intros idx. simpl. by destruct (decide (idx = dst_off + k)).
  - exists dst'. split; [done |]. eapply writes_ext; [| exact Hw].
    intros idx. destruct (decide (dst_off <= idx < dst_off + count)) as [Hin | Hout].
    + destruct (lookup_lt_is_Some_2 src (idx - dst_off)) as [v Hv]; [lia |].
      rewrite Hv. apply writes_upto_last with (i := idx - dst_off); [lia | |].
      * by rewrite decide_True by lia.
      * intros i' Hi'. by rewrite decide_False by lia.
    + apply writes_upto_None. intros i Hi. by rewrite decide_False by lia.
Qed.

Lemma cudaMemset_zero_eq (dst : buffer) (count : nat) :
  count <= length dst ->
  cudaMemset_zero dst count = Some (replicate count zero ++ drop count dst).
Proof.
  intros Hc. unfold cudaMemset_zero.
  destruct (for_loop_writes count (λ k dst, store dst k zero)
              (λ k idx, if decide (idx = k) then Some zero else None) dst)
    as (dst' & -> & Hlen & Hw).
  - intros k C' Hk Hlen. apply store_writes. lia.
  - f_equal. apply list_eq. intros idx. rewrite Hw.
    destruct (decide (idx < count)) as [Hlt | Hge].
    + rewrite (writes_upto_last _ _ _ idx zero); [| lia | by rewrite decide_True |].
      * simpl. rewrite lookup_app_l by (rewrite length_replicate; lia).
        symmetry. by apply lookup_replicate.
      * intros i' Hi'. by rewrite decide_False by lia.
    + rewrite writes_upto_None by (intros i Hi; by rewrite decide_False by lia).
      simpl. rewrite lookup_app_r by (rewrite length_replicate; lia).
      rewrite length_replicate, lookup_drop. f_equal. lia.
Qed.

(** *** [cublasSgemm] *)

Lemma dot_S (k : nat) (a b : nat -> float) :
  dot (S k) a b = fadd (dot k a b) (fmul (a k) (b k)).
Proof. unfold dot. by rewrite seq_S, foldl_snoc. Qed.

Lemma dot_ext (k : nat) (a a' b b' : nat -> float) :
  (forall l, l < k -> a l = a' l) -> (forall l, l < k -> b l = b' l) ->
  dot k a b = dot k a' b'.
Proof.
  intros Ha Hb. induction k as [|k IH]; [done |].
  rewrite !dot_S, IH, Ha, Hb by (intros; auto with lia). done.
Qed.

Lemma gemm_dot_Some (transa transb : cublasOperation_t) (k : nat)
    (A : buffer) (lda : nat) (B : buffer) (ldb : nat) (i j : nat) :
  (forall l, l < k -> mat_index transa lda i l < length A) ->
  (forall l, l < k -> mat_index transb ldb l j < length B) ->
  gemm_dot transa transb k A lda B ldb i j
    = Some (dot k (λ l, A !!! mat_index transa lda i l)
                  (λ l, B !!! mat_index transb ldb l j)).
Proof.
  intros HA HB. unfold gemm_dot.
  destruct (for_loop_inv
    (λ n acc, acc = dot n (λ l, A !!! mat_index transa lda i l)
                          (λ l, B !!! mat_index transb ldb l j))
    k 0
    (λ l acc, a ← load A (mat_index transa lda i l);
              b ← load B (mat_index transb ldb l j);
              Some (fadd acc (fmul a b)))
    zero) as (acc & -> & ->); [done | | done].
  intros l acc Hl ->. unfold load.
  rewrite !list_lookup_lookup_total_lt by (apply HA || apply HB; lia). simpl.
  eexists. split; [done |]. by rewrite dot_S.
Qed.

Lemma cublasSgemm_overwrite (transa transb : cublasOperation_t) (m n k : nat)
    (alpha : float) (A : buffer) (lda : nat) (B : buffer) (ldb : nat)
    (beta : float) (C : buffer) (ldc : nat) :
  is_zero beta = true ->
  gemm_args_ok transa transb m n k lda ldb ldc = true ->
  (forall i l, i < m -> l < k -> mat_index transa lda i l < length A) ->
  (forall l j, l < k -> j < n -> mat_index transb ldb l j < length B) ->
  (forall i j, i < m -> j < n -> i + j * ldc < length C) ->
  exists C',
    cublasSgemm transa transb m n k alpha A lda B ldb beta C ldc = Some C' /\
    length C' = length C /\
    (forall i j, i < m -> j < n ->
       C' !! (i + j * ldc) = Some (gemm_entry transa transb k alpha A lda B ldb i j)) /\
    (forall idx, (forall i j, i < m -> j < n -> idx <> i + j * ldc) ->
       C' !! idx = C !! idx).
Proof.
  intros Hbeta Hok HA HB HC. unfold cublasSgemm. rewrite Hok, Hbeta.
  assert (Hm : m <= ldc).
  { unfold gemm_args_ok in Hok. rewrite !andb_true_iff, !bool_decide_eq_true in Hok. lia. }
  set (val := gemm_entry transa transb k alpha A lda B ldb).
  set (Wcol := λ j i idx, if decide (idx = i + j * ldc) then Some (val i j) else None).
  destruct (for_loop_writes n
    (λ j C, for_loop m 0
       (λ i C, acc ← gemm_dot transa transb k A lda B ldb i j;
               v ← Some (fmul alpha acc);
               store C (i + j * ldc) v) C)
    (λ j, writes_upto (Wcol j) m) C) as (C' & Hl & Hlen & HC').
  - intros j C1 Hj Hlen1.
    apply (for_loop_writes m _ (Wcol j)).
    intros i C2 Hi Hlen2. rewrite gemm_dot_Some by auto. simpl.
    apply store_writes. rewrite Hlen2, Hlen1. by apply HC.
  - exists C'. split; [done |]. split; [done |]. split.
    + intros i j Hi Hj. rewrite HC'.
      rewrite (writes_upto_last _ n _ j (val i j)); [done | done | |].
      * apply writes_upto_last with (i := i); [done | |].
        -- unfold Wcol. by rewrite decide_True.
        -- intros i' Hi'. unfold Wcol. by rewrite decide_False by lia.
      * intros j' Hj'. apply writes_upto_None. intros i' Hi'.
        unfold Wcol. rewrite decide_False; [done | nia].
    + intros idx Hidx. rewrite HC'.
      rewrite writes_upto_None; [done |].
      intros j Hj. apply writes_upto_None. intros i Hi.
      unfold Wcol. rewrite decide_False; [done |]. by apply Hidx.
Qed.

(** ** [forward] *)

Lemma cublasSgemm_length (transa transb : cublasOperation_t) (m n k : nat)
    (alpha : float) (A : buffer) (lda : nat) (B : buffer) (ldb : nat)
    (beta : float) (C : buffer) (ldc : nat) :
  is_zero beta = true ->
  (forall i l, i < m -> l < k -> mat_index transa lda i l < length A) ->
  (forall l j, l < k -> j < n -> mat_index transb ldb l j < length B) ->
  (forall i j, i < m -> j < n -> i + j * ldc < length C) ->
  exists C',
    cublasSgemm transa transb m n k alpha A lda B ldb beta C ldc = Some C' /\
    length C' = length C.
Proof.
  intros Hbeta HA HB HC.
  destruct (gemm_args_ok transa transb m n k lda ldb ldc) eqn:Hok.
  - destruct (cublasSgemm_overwrite transa transb m n k alpha A lda B ldb beta C ldc)
      as (C' & Hg & Hlen & _); try done. by exists C'.
  - exists C. unfold cublasSgemm. by rewrite Hok.
Qed.

(** Whatever the product was, the copy loop of [forward] leaves the bias
    in every column. *)
Lemma forward_broadcasts_bias (L : FCLayer) (input output : buffer) (batch_size : nat) :
  well_sized L ->
  length input = input_size L * batch_size ->
  length output = output_size L * batch_size ->
  exists out,
    forward L input output batch_size = Some out /\
    length out = output_size L * batch_size /\
    forall j k, j < batch_size -> k < output_size L ->
      out !! (k + j * output_size L) = bias L !! k.
Proof.
  intros (Hw & Hb & _ & _) Hin Hout. unfold forward. cbv zeta.
  destruct (cublasSgemm_length CUBLAS_OP_T CUBLAS_OP_N
              (output_size L) batch_size (input_size L) one
              (weights L) (input_size L) input (input_size L)
              zero output (output_size L)) as (out1 & -> & Hlen1); [done | ..].
  { intros i l Hi Hl. simpl. rewrite Hw. nia. }
  { intros l j Hl Hj. simpl. rewrite Hin. nia. }
  { intros i j Hi Hj. rewrite Hout. nia. }
  simpl.
  set (os := output_size L) in *.
  destruct (for_loop_writes batch_size
    (λ i output, cudaMemcpy output (i * os) (bias L) os)
    (λ j idx, if decide (j * os <= idx < j * os + os)
              then bias L !! (idx - j * os) else None) out1)
    as (out & Hl & Hlen & Hout').
  - intros j C' Hj HlenC. apply cudaMemcpy_writes; [lia |].
    rewrite HlenC, Hlen1, Hout. nia.
  - exists out. split; [done |]. split; [lia |].
    intros j k Hj Hk. rewrite Hout'.
    destruct (lookup_lt_is_Some_2 (bias L) k) as [v Hv]; [lia |].
    rewrite (writes_upto_last _ _ _ j v); [by rewrite Hv | done | |].
    + rewrite decide_True by lia. rewrite <- Hv. f_equal. lia.
    + intros j' Hj'. rewrite decide_False; [done | nia].
Qed.

Lemma column_eq (M b : buffer) (rows j : nat) :
  length b = rows ->
  (forall k, k < rows -> M !! (k + j * rows) = b !! k) ->
  column M rows j = b.
Proof.
  intros Hb HM. unfold column. apply list_eq. intros k.
  destruct (decide (k < rows)) as [Hk | Hk].
  - rewrite lookup_take_lt, lookup_drop by done. rewrite <- HM by done. f_equal. lia.
  - rewrite lookup_take_ge by lia. symmetry. apply lookup_ge_None_2. lia.
Qed.

(** Claim C8.  For every layer of allocated sizes and every batch size
    for which the column offsets fit an [int]
    ([output_size * batch_size <= INT_MAX]), [forward] on the all-zeros
    input (into an output buffer of [output_size * batch_size] elements)
    terminates without an invalid access and leaves in every column of the
    output exactly the bias vector. *)
Theorem forward_zero_input (L : FCLayer) (output : buffer) (batch_size : nat) :
  well_sized L ->
  (Z.of_nat (output_size L * batch_size) <= 2147483647)%Z ->
  length output = output_size L * batch_size ->
  exists out,
    forward L (replicate (input_size L * batch_size) zero) output batch_size = Some out /\
    length out = output_size L * batch_size /\
    forall j, j < batch_size -> column out (output_size L) j = bias L.
Proof.
  intros HL _ Hout.
  destruct (forward_broadcasts_bias L (replicate (input_size L * batch_size) zero)
              output batch_size) as (out & Hf & Hlen & Hcols);
    [done | by rewrite length_replicate | done |].
  exists out. split; [done |]. split; [done |].
  intros j Hj. apply column_eq; [by destruct HL as (_ & ? & _) |].
  intros k Hk. by apply Hcols.
Qed.

Lemma forward_zero_input_witness :
  (well_sized sample_layer /\
   (Z.of_nat (output_size sample_layer * 3) <= 2147483647)%Z /\
   length [nan; nan; nan] = output_size sample_layer * 3) /\
  exists out,
    forward sample_layer (replicate (input_size sample_layer * 3) zero) [nan; nan; nan] 3
      = Some out /\
    length out = output_size sample_layer * 3 /\
    forall j, j < 3 -> column out (output_size sample_layer) j = bias sample_layer.
Proof.
  assert (Hs : well_sized sample_layer) by (repeat split).
  assert (Hr : (Z.of_nat (output_size sample_layer * 3) <= 2147483647)%Z)
    by (simpl; lia).
  assert (Hl : length [nan; nan; nan] = output_size sample_layer * 3) by reflexivity.
  split; [done |].
  exact (forward_zero_input sample_layer [nan; nan; nan] 3 Hs Hr Hl).
Defined.

(** Claim C1 fails on the code.  On the sample layer ([W = (1, 2)ᵗ],
    [b = (6)]) and the input column [(1, 1)ᵗ] the affine map gives
    [1*1 + 2*1 + 6 = 9], while [forward] returns [6]: the copy of the bias
    replaces the product instead of being added to it. *)
Theorem forward_overwrites_product :
  forward sample_layer [one; one] [zero] 1 = Some [six] /\
  affine_entry sample_layer [one; one] 0 0 = of_int 9 /\
  of_int 9 <> six.
Proof. split; [| split]; [vm_compute; reflexivity .. | discriminate]. Qed.

(** ** [backward] *)

Lemma cublasSaxpy_unit_stride (n : nat) (alpha : float) (x : buffer) (x_off : nat)
    (y : buffer) :
  x_off + n <= length x -> n <= length y ->
  exists y',
    cublasSaxpy n alpha x x_off 1 y 1 = Some y' /\
    length y' = length y /\
    forall k, y' !! k =
      if decide (k < n)
      then Some (fadd (fmul alpha (x !!! (x_off + k))) (y !!! k))
      else y !! k.
Proof.
  intros Hx Hy. unfold cublasSaxpy.
  destruct (for_loop_inv
    (λ i (y' : buffer), length y' = length y /\
       forall k, y' !! k =
         if decide (k < i)
         then Some (fadd (fmul alpha (x !!! (x_off + k))) (y !!! k))
         else y !! k)
    n 0
    (λ k y, xv ← load x (x_off + k * 1);
            yv ← load y (k * 1);
            store y (k * 1) (fadd (fmul alpha xv) yv))
    y) as (y' & Hl & Hy'); [| | by exists y'].
  - split; [done |]. intros k. by rewrite decide_False by lia.
  - intros i y1 Hi [Hlen H1]. unfold load. rewrite Nat.mul_1_r.
    rewrite (list_lookup_lookup_total_lt x) by lia. simpl.
    rewrite H1, decide_False by lia.
    rewrite (list_lookup_lookup_total_lt y) by lia. simpl.
    rewrite store_Some by lia. eexists. split; [done |].
    split; [by rewrite length_insert |].
    intros k. destruct (decide (k = i)) as [-> | Hne].
    + rewrite list_lookup_insert_eq, decide_True by lia. done.
    + rewrite list_lookup_insert_ne, H1 by done.
      destruct (decide (k < i)), (decide (k < S i)); try done; lia.
Qed.

Lemma add_columns_S (G : buffer) (rows cols k : nat) (acc : float) :
  add_columns G rows (S cols) k acc
    = fadd (add_columns G rows cols k acc) (entry G rows k cols).
Proof. unfold add_columns. by rewrite seq_S, foldl_snoc. Qed.

Lemma Forall_valid_lookup_total (b : buffer) (i : nat) :
  Forall (λ x, valid x = true) b -> valid (b !!! i) = true.
Proof.
  intros Hb. destruct (decide (i < length b)) as [Hi | Hi].
  - apply (Forall_lookup_1 (λ x, valid x = true) b i); [done |].
    by apply list_lookup_lookup_total_lt.
  - by rewrite list_lookup_total_alt, lookup_ge_None_2 by lia.
Qed.

(** The accumulation loop of [backward] adds the columns of [grad_output]
    to [grad_bias], first column first. *)
Lemma bias_gradient_loop (grad_output gb : buffer) (os batch_size : nat) :
  Forall (λ x, valid x = true) grad_output ->
  length grad_output = os * batch_size ->
  length gb = os ->
  exists gb',
    for_loop batch_size 0
      (λ i grad_bias, cublasSaxpy os one grad_output (i * os) 1 grad_bias 1) gb
      = Some gb' /\
    length gb' = os /\
    forall k, k < os ->
      gb' !! k = Some (add_columns grad_output os batch_size k (gb !!! k)).
Proof.
  intros Hv Hgo Hgb.
  destruct (for_loop_inv
    (λ j (gb' : buffer), length gb' = os /\
       forall k, k < os ->
         gb' !! k = Some (add_columns grad_output os j k (gb !!! k)))
    batch_size 0
    (λ i grad_bias, cublasSaxpy os one grad_output (i * os) 1 grad_bias 1) gb)
    as (gb' & Hl & Hgb'); [| | by exists gb'].
  - split; [done |]. intros k Hk. by apply list_lookup_lookup_total_lt; lia.
  - intros j gb1 Hj [Hlen H1].
    destruct (cublasSaxpy_unit_stride os one grad_output (j * os) gb1)
      as (gb2 & Hs & Hlen2 & H2); [nia | lia |].
    exists gb2. split; [done |]. split; [lia |].
    intros k Hk. rewrite H2, decide_True by done. f_equal.
    rewrite add_columns_S, fmul_one_l by (by apply Forall_valid_lookup_total).
    rewrite fadd_comm. f_equal.
    + apply list_lookup_total_correct. by apply H1.
    + unfold entry. f_equal. lia.
Qed.

Lemma backward_spec (L : FCLayer) (input grad_output grad_input : buffer)
    (batch_size : nat) :
  0 < input_size L -> 0 < output_size L ->
  well_sized L ->
  length input = input_size L * batch_size ->
  length grad_output = output_size L * batch_size ->
  length grad_input = input_size L * batch_size ->
  Forall (λ x, valid x = true) grad_output ->
  exists gi gw gb,
    backward L input grad_output grad_input batch_size
      = Some (mkFCLayer (input_size L) (output_size L) (weights L) (bias L) gw gb, gi) /\
    (length gi = input_size L * batch_size /\
     forall i j, i < input_size L -> j < batch_size ->
       gi !! (i + j * input_size L)
         = Some (gemm_entry CUBLAS_OP_N CUBLAS_OP_N (output_size L) one
                   (weights L) (input_size L) grad_output (output_size L) i j)) /\
    (length gw = input_size L * output_size L /\
     forall i j, i < input_size L -> j < output_size L ->
       gw !! (i + j * input_size L)
         = Some (gemm_entry CUBLAS_OP_N CUBLAS_OP_T batch_size one
                   input (input_size L) grad_output (output_size L) i j)) /\
    (length gb = output_size L /\
     forall k, k < output_size L ->
       gb !! k = Some (add_columns grad_output (output_size L) batch_size k
                         (grad_bias L !!! k))).
Proof.
  intros His Hos (Hw & Hb & Hgw & Hgb) Hin Hgo Hgi Hv. unfold backward. cbv zeta.
  destruct (cublasSgemm_overwrite CUBLAS_OP_N CUBLAS_OP_N
              (input_size L) batch_size (output_size L) one
              (weights L) (input_size L) grad_output (output_size L)
              zero grad_input (input_size L)) as (gi & -> & Hlgi & Hgi1 & _); [done | ..].
  { unfold gemm_args_ok. simpl. rewrite !andb_true_iff, !bool_decide_eq_true. lia. }
  { intros i l Hi Hl. simpl. rewrite Hw. nia. }
  { intros l j Hl Hj. simpl. rewrite Hgo. nia. }
  { intros i j Hi Hj. rewrite Hgi. nia. }
  simpl.
  destruct (cublasSgemm_overwrite CUBLAS_OP_N CUBLAS_OP_T
              (input_size L) (output_size L) batch_size one
              input (input_size L) grad_output (output_size L)
              zero (grad_weights L) (input_size L)) as (gw & -> & Hlgw & Hgw1 & _); [done | ..].
  { unfold gemm_args_ok. simpl. rewrite !andb_true_iff, !bool_decide_eq_true. lia. }
  { intros i l Hi Hl. simpl. rewrite Hin. nia. }
  { intros l j Hl Hj. simpl. rewrite Hgo. nia. }
  { intros i j Hi Hj. rewrite Hgw. nia. }
  simpl.
  destruct (bias_gradient_loop grad_output (grad_bias L) (output_size L) batch_size)
    as (gb & -> & Hlgb & Hgb1); [done .. |].
  simpl. exists gi, gw, gb. split; [done |].
  split; [split; [lia | done] |]. split; [split; [lia | done] |]. done.
Qed.

Lemma dot_valid (k : nat) (a b : nat -> float) :
  (forall l, valid (a l) = true) -> (forall l, valid (b l) = true) ->
  valid (dot k a b) = true.
Proof.
  intros Ha Hb. induction k as [|k IH]; [done |].
  rewrite dot_S. apply fadd_valid; [done |]. by apply fmul_valid.
Qed.

Lemma gemm_entry_one (transa transb : cublasOperation_t) (k : nat)
    (A : buffer) (lda : nat) (B : buffer) (ldb : nat) (i j : nat) :
  Forall (λ x, valid x = true) A -> Forall (λ x, valid x = true) B ->
  gemm_entry transa transb k one A lda B ldb i j
    = dot k (λ l, A !!! mat_index transa lda i l) (λ l, B !!! mat_index transb ldb l j).
Proof.
  intros HA HB. unfold gemm_entry. apply fmul_one_l.
  apply dot_valid; intros l; by apply Forall_valid_lookup_total.
Qed.

(** Claim C2.  For every layer of allocated, positive sizes and every batch
    of binary32 values in buffers of the matching sizes, with column
    offsets that fit an [int] ([output_size * batch_size <= INT_MAX]),
    [backward] terminates without an invalid access and
    - overwrites [grad_input] with [W · GradOutput]: entry (i, j) is the
      sum over [l] of [W(i,l) * GradOutput(l,j)], no operand transposed;
    - overwrites [grad_weights] with [Input · GradOutputᵗ]: entry (i, j) is
      the sum over [l] of [Input(i,l) * GradOutput(j,l)], whatever the buffer
      held before;
    - adds to every entry [k] of [grad_bias], on top of its prior value, row
      [k] of [GradOutput], one column after the other;
    and leaves weights, bias and sizes as they were.  Sums are accumulated
    in index order with binary32 rounding. *)
Theorem backward_gradients (L : FCLayer) (input grad_output grad_input : buffer)
    (batch_size : nat) :
  0 < input_size L -> 0 < output_size L ->
  well_sized L ->
  (Z.of_nat (output_size L * batch_size) <= 2147483647)%Z ->
  length input = input_size L * batch_size ->
  length grad_output = output_size L * batch_size ->
  length grad_input = input_size L * batch_size ->
  Forall (λ x, valid x = true) (weights L) ->
  Forall (λ x, valid x = true) input ->
  Forall (λ x, valid x = true) grad_output ->
  exists L' gi,
    backward L input grad_output grad_input batch_size = Some (L', gi) /\
    (length gi = input_size L * batch_size /\
     forall i j, i < input_size L -> j < batch_size ->
       gi !! (i + j * input_size L)
         = Some (dot (output_size L)
                   (λ l, entry (weights L) (input_size L) i l)
                   (λ l, entry grad_output (output_size L) l j))) /\
    (length (grad_weights L') = input_size L * output_size L /\
     forall i j, i < input_size L -> j < output_size L ->
       grad_weights L' !! (i + j * input_size L)
         = Some (dot batch_size
                   (λ l, entry input (input_size L) i l)
                   (λ l, entry grad_output (output_size L) j l))) /\
    (length (grad_bias L') = output_size L /\
     forall k, k < output_size L ->
       grad_bias L' !! k
         = Some (add_columns grad_output (output_size L) batch_size k
                   (grad_bias L !!! k))) /\
    weights L' = weights L /\ bias L' = bias L /\
    input_size L' = input_size L /\ output_size L' = output_size L.
Proof.
  intros His Hos HL _ Hin Hgo Hgi HvW HvI HvG.
  destruct (backward_spec L input grad_output grad_input batch_size)
    as (gi & gw & gb & Hb & (Hlgi & Hgi1) & (Hlgw & Hgw1) & (Hlgb & Hgb1)); [done .. |].
  eexists _, gi. split; [exact Hb |]. simpl.
  split; [split; [done |] |]. 2: split; [split; [done |] |]. 3: done.
  - intros i j Hi Hj. rewrite Hgi1, gemm_entry_one by done. done.
  - intros i j Hi Hj. rewrite Hgw1, gemm_entry_one by done. done.
Qed.

Lemma backward_gradients_witness :
  (0 < input_size sample_layer /\ 0 < output_size sample_layer /\
   well_sized sample_layer /\
   (Z.of_nat (output_size sample_layer * 1) <= 2147483647)%Z /\
   length [one; two] = input_size sample_layer * 1 /\
   length [six] = output_size sample_layer * 1 /\
   length [nan; nan] = input_size sample_layer * 1 /\
   Forall (λ x, valid x = true) (weights sample_layer) /\
   Forall (λ x, valid x = true) [one; two] /\
   Forall (λ x, valid x = true) [six]) /\
  exists L' gi,
    backward sample_layer [one; two] [six] [nan; nan] 1 = Some (L', gi) /\
    (length gi = input_size sample_layer * 1 /\
     forall i j, i < input_size sample_layer -> j < 1 ->
       gi !! (i + j * input_size sample_layer)
         = Some (dot (output_size sample_layer)
                   (λ l, entry (weights sample_layer) (input_size sample_layer) i l)
                   (λ l, entry [six] (output_size sample_layer) l j))) /\
    (length (grad_weights L') = input_size sample_layer * output_size sample_layer /\
     forall i j, i < input_size sample_layer -> j < output_size sample_layer ->
       grad_weights L' !! (i + j * input_size sample_layer)
         = Some (dot 1
                   (λ l, entry [one; two] (input_size sample_layer) i l)
                   (λ l, entry [six] (output_size sample_layer) j l))) /\
    (length (grad_bias L') = output_size sample_layer /\
     forall k, k < output_size sample_layer ->
       grad_bias L' !! k
         = Some (add_columns [six] (output_size sample_layer) 1 k
                   (grad_bias sample_layer !!! k))) /\
    weights L' = weights sample_layer /\ bias L' = bias sample_layer /\
    input_size L' = input_size sample_layer /\
    output_size L' = output_size sample_layer.
Proof.
  assert (H1 : 0 < input_size sample_layer) by (simpl; lia).
  assert (H2 : 0 < output_size sample_layer) by (simpl; lia).
  assert (H3 : well_sized sample_layer) by (repeat split).
  assert (H4 : length [one; two] = input_size sample_layer * 1) by reflexivity.
  assert (H5 : length [six] = output_size sample_layer * 1) by reflexivity.
  assert (H6 : length [nan; nan] = input_size sample_layer * 1) by reflexivity.
  assert (H7 : Forall (λ x, valid x = true) (weights sample_layer))
    by (repeat constructor).
  assert (H8 : Forall (λ x, valid x = true) [one; two]) by (repeat constructor).
  assert (H9 : Forall (λ x, valid x = true) [six]) by (repeat constructor).
  assert (Hr : (Z.of_nat (output_size sample_layer * 1) <= 2147483647)%Z)
    by (simpl; lia).
  split; [done |].
  exact (backward_gradients sample_layer [one; two] [six] [nan; nan] 1
           H1 H2 H3 Hr H4 H5 H6 H7 H8 H9).
Defined.

(** Two column-major buffers of [rows × cols] elements with the same
    entries are equal. *)
Lemma buffer_eq_by_entries (C1 C2 : buffer) (rows cols : nat) :
  0 < rows ->
  length C1 = rows * cols -> length C2 = rows * cols ->
  (forall i j, i < rows -> j < cols ->
     C1 !! (i + j * rows) = C2 !! (i + j * rows)) ->
  C1 = C2.
Proof.
  intros Hr H1 H2 H. apply list_eq. intros idx.
  destruct (decide (idx < rows * cols)) as [Hlt | Hge].
  - pose proof (Nat.div_mod idx rows ltac:(lia)) as Hd.
    pose proof (Nat.mod_upper_bound idx rows ltac:(lia)) as Hm.
    replace idx with (idx mod rows + idx / rows * rows) by lia.
    apply H; [done |].
    apply Nat.Div0.div_lt_upper_bound. lia.
  - by rewrite !lookup_ge_None_2 by lia.
Qed.

(** Claim C3.  For every layer of allocated, positive sizes and every batch
    of binary32 values with column offsets that fit an [int]
    ([output_size * batch_size <= INT_MAX]), two [backward] calls in a row
    with the same
    [input], [grad_output] and batch size (the second receiving the layer
    and the [grad_input] buffer the first left) both terminate; the second
    leaves the same [grad_input] and the same [grad_weights] as the first,
    while every entry [k] of [grad_bias] has had row [k] of [grad_output]
    added to it once after the first call and twice after the second. *)
Theorem backward_twice (L : FCLayer) (input grad_output grad_input : buffer)
    (batch_size : nat) :
  0 < input_size L -> 0 < output_size L ->
  well_sized L ->
  (Z.of_nat (output_size L * batch_size) <= 2147483647)%Z ->
  length input = input_size L * batch_size ->
  length grad_output = output_size L * batch_size ->
  length grad_input = input_size L * batch_size ->
  Forall (λ x, valid x = true) grad_output ->
  exists L1 gi1 L2 gi2,
    backward L input grad_output grad_input batch_size = Some (L1, gi1) /\
    backward L1 input grad_output gi1 batch_size = Some (L2, gi2) /\
    gi2 = gi1 /\
    grad_weights L2 = grad_weights L1 /\
    forall k, k < output_size L ->
      grad_bias L1 !! k
        = Some (add_columns grad_output (output_size L) batch_size k
                  (grad_bias L !!! k)) /\
      grad_bias L2 !! k
        = Some (add_columns grad_output (output_size L) batch_size k
                  (add_columns grad_output (output_size L) batch_size k
                     (grad_bias L !!! k))).
Proof.
  intros His Hos HL _ Hin Hgo Hgi Hv.
  destruct (backward_spec L input grad_output grad_input batch_size)
    as (gi1 & gw1 & gb1 & Hb1 & (Hlgi1 & Hgi1) & (Hlgw1 & Hgw1) & (Hlgb1 & Hgb1));
    [done .. |].
  set (L1 := mkFCLayer (input_size L) (output_size L) (weights L) (bias L) gw1 gb1) in *.
  assert (HL1 : well_sized L1) by (destruct HL as (? & ? & ? & ?); by repeat split).
  destruct (backward_spec L1 input grad_output gi1 batch_size)
    as (gi2 & gw2 & gb2 & Hb2 & (Hlgi2 & Hgi2) & (Hlgw2 & Hgw2) & (Hlgb2 & Hgb2));
    [done .. |].
  simpl in *.
  eexists L1, gi1, _, gi2. split; [exact Hb1 |]. split; [exact Hb2 |]. simpl.
  split; [| split].
  - apply (buffer_eq_by_entries _ _ (input_size L) batch_size); try done.
    intros i j Hi Hj. by rewrite Hgi1, Hgi2.
  - apply (buffer_eq_by_entries _ _ (input_size L) (output_size L)); try done.
    intros i j Hi Hj. by rewrite Hgw1, Hgw2.
  - intros k Hk. split; [by apply Hgb1 |].
    rewrite Hgb2 by done. do 2 f_equal.
    apply list_lookup_total_correct. by apply Hgb1.
Qed.

Lemma backward_twice_witness :
  (0 < input_size sample_layer /\ 0 < output_size sample_layer /\
   well_sized sample_layer /\
   (Z.of_nat (output_size sample_layer * 1) <= 2147483647)%Z /\
   length [one; two] = input_size sample_layer * 1 /\
   length [six] = output_size sample_layer * 1 /\
   length [nan; nan] = input_size sample_layer * 1 /\
   Forall (λ x, valid x = true) [six]) /\
  exists L1 gi1 L2 gi2,
    backward sample_layer [one; two] [six] [nan; nan] 1 = Some (L1, gi1) /\
    backward L1 [one; two] [six] gi1 1 = Some (L2, gi2) /\
    gi2 = gi1 /\
    grad_weights L2 = grad_weights L1 /\
    forall k, k < output_size sample_layer ->
      grad_bias L1 !! k
        = Some (add_columns [six] (output_size sample_layer) 1 k
                  (grad_bias sample_layer !!! k)) /\
      grad_bias L2 !! k
        = Some (add_columns [six] (output_size sample_layer) 1 k
                  (add_columns [six] (output_size sample_layer) 1 k
                     (grad_bias sample_layer !!! k))).
Proof.
  assert (H1 : 0 < input_size sample_layer) by (simpl; lia).
  assert (H2 : 0 < output_size sample_layer) by (simpl; lia).
  assert (H3 : well_sized sample_layer) by (repeat split).
  assert (H4 : length [one; two] = input_size sample_layer * 1) by reflexivity.
  assert (H5 : length [six] = output_size sample_layer * 1) by reflexivity.
  assert (H6 : length [nan; nan] = input_size sample_layer * 1) by reflexivity.
  assert (H9 : Forall (λ x, valid x = true) [six]) by (repeat constructor).
  assert (Hr : (Z.of_nat (output_size sample_layer * 1) <= 2147483647)%Z)
    by (simpl; lia).
  split; [done |].
  exact (backward_twice sample_layer [one; two] [six] [nan; nan] 1
           H1 H2 H3 Hr H4 H5 H6 H9).
Defined.

(** ** The constructor *)

Lemma cudaMalloc_length {A} (junk : nat -> A) (n : nat) :
  length (cudaMalloc junk n) = n.
Proof. unfold cudaMalloc. by rewrite length_fmap, length_seq. Qed.

Lemma cudaMalloc_lookup {A} (junk : nat -> A) (n i : nat) :
  i < n -> cudaMalloc junk n !! i = Some (junk i).
Proof.
  intros Hi. unfold cudaMalloc. rewrite list_lookup_fmap, lookup_seq_lt by done. done.
Qed.

Section ConstructorFacts.

Context {curandState : Type}.
Variable curand_init : Z -> nat -> nat -> curandState.
Variable curand_uniform : curandState -> float * curandState.

(** Every state below [n] is initialised from the seed and its own index. *)
Lemma init_curand_states_launch (seed : Z) (n : nat) (states : list curandState) :
  length states = n ->
  launch ((n + 256 - 1) / 256) 256 (init_curand_states curand_init seed n) states
    = Some ((λ id, curand_init seed id 0) <$> seq 0 n).
Proof.
  intros Hlen.
  destruct (launch_inv
    (λ k (sts : list curandState), length sts = n /\
       forall i, sts !! i =
         if decide (i < n `min` k) then Some (curand_init seed i 0) else states !! i)
    ((n + 256 - 1) / 256) 256 (init_curand_states curand_init seed n) states)
    as (sts & -> & Hl & Hsts).
  - split; [done |]. intros i. by rewrite decide_False by lia.
  - intros b t sts _ _ [Hl Hsts]. unfold init_curand_states.
    set (id := b * 256 + t) in *.
    destruct (decide (id < n)) as [Hid | Hid].
    + rewrite store_Some by lia. eexists. split; [done |].
      split; [by rewrite length_insert |].
      intros i. destruct (decide (i = id)) as [-> | Hne].
      * by rewrite list_lookup_insert_eq, decide_True by lia.
      * rewrite list_lookup_insert_ne, Hsts by done.
        destruct (decide (i < n `min` id)), (decide (i < n `min` S id)); try done; lia.
    + exists sts. split; [done |]. split; [done |].
      intros i. rewrite Hsts.
      destruct (decide (i < n `min` id)), (decide (i < n `min` S id)); try done; lia.
  - f_equal. apply list_eq. intros i. rewrite Hsts.
    pose proof (grid_covers n).
    destruct (decide (i < n `min` ((n + 256 - 1) / 256 * 256))) as [Hi | Hi].
    + by rewrite list_lookup_fmap, lookup_seq_lt by lia.
    + rewrite list_lookup_fmap, lookup_seq_ge by lia.
      apply lookup_ge_None_2. lia.
Qed.

(** The fill kernel draws once from every state and writes
    [(u * 2 - 1) * sqrt(6 / size)]; its [scale] argument does not occur in
    the result. *)
Lemma init_weights_launch (size : nat) (scale : float)
    (weights : buffer) (states : list curandState) :
  length weights = size -> length states = size ->
  launch ((size + 256 - 1) / 256) 256
    (init_weights curand_uniform size scale) (weights, states)
    = Some ((λ st, init_weight_value size (curand_uniform st).1) <$> states,
            (λ st, (curand_uniform st).2) <$> states).
Proof.
  intros Hw Hs.
  destruct (launch_inv
    (λ k (ws : buffer * list curandState),
       length ws.1 = size /\ length ws.2 = size /\
       forall i,
         ws.1 !! i = (if decide (i < size `min` k)
                      then (λ st, init_weight_value size (curand_uniform st).1) <$> states !! i
                      else weights !! i) /\
         ws.2 !! i = (if decide (i < size `min` k)
                      then (λ st, (curand_uniform st).2) <$> states !! i
                      else states !! i))
    ((size + 256 - 1) / 256) 256
    (init_weights curand_uniform size scale) (weights, states))
    as ([ws sts] & -> & Hlw & Hls & Hws).
  - split; [done |]. split; [done |]. intros i. by rewrite !decide_False by lia.
  - intros b t [ws sts] _ _ (Hlw & Hls & H). simpl in Hlw, Hls, H.
    unfold init_weights. set (idx := b * 256 + t) in *.
    destruct (decide (idx < size)) as [Hidx | Hidx].
    + destruct (lookup_lt_is_Some_2 states idx) as [st Hst]; [lia |].
      unfold load. destruct (H idx) as [_ Hsi].
      rewrite Hsi, decide_False, Hst by lia. simpl.
      destruct (curand_uniform st) as [u st'] eqn:Hu.
      rewrite !store_Some by lia. eexists. split; [reflexivity |]. cbn [fst snd].
      split; [by rewrite length_insert |]. split; [by rewrite length_insert |].
      intros i. destruct (decide (i = idx)) as [-> | Hne].
      * rewrite !list_lookup_insert_eq, !decide_True, Hst by lia.
        cbn [fmap option_fmap option_map]. by rewrite Hu.
      * rewrite !list_lookup_insert_ne by done. destruct (H i) as [-> ->].
        destruct (decide (i < size `min` idx)), (decide (i < size `min` S idx));
          try done; lia.
    + eexists. split; [done |]. simpl. split; [done |]. split; [done |].
      intros i. destruct (H i) as [-> ->].
      destruct (decide (i < size `min` idx)), (decide (i < size `min` S idx));
        try done; lia.
  - cbn [fst snd] in *. pose proof (grid_covers size).
    f_equal. f_equal; apply list_eq; intros i; destruct (Hws i) as [H1 H2].
    + rewrite H1, list_lookup_fmap.
      destruct (decide (i < size `min` ((size + 256 - 1) / 256 * 256))); [done |].
      by rewrite !lookup_ge_None_2 by lia.
    + rewrite H2, list_lookup_fmap.
      destruct (decide (i < size `min` ((size + 256 - 1) / 256 * 256))); [done |].
      by rewrite !lookup_ge_None_2 by lia.
Qed.

Lemma FCLayer_new_with_scale_eq (scale : float) (input_size output_size : nat)
    (junk_w junk_b junk_gw junk_gb : nat -> float) (junk_st : nat -> curandState) :
  FCLayer_new_with_scale curand_init curand_uniform scale input_size output_size
    junk_w junk_b junk_gw junk_gb junk_st
  = Some (mkFCLayer input_size output_size
            ((λ i, init_weight_value (input_size * output_size)
                     (first_draw curand_init curand_uniform i))
               <$> seq 0 (input_size * output_size))
            (replicate output_size zero)
            (cudaMalloc junk_gw (input_size * output_size))
            (cudaMalloc junk_gb output_size)).
Proof.
  unfold FCLayer_new_with_scale. cbv zeta.
  rewrite (init_curand_states_launch 1234 (input_size * output_size))
    by apply cudaMalloc_length.
  simpl.
  rewrite (init_weights_launch (input_size * output_size) scale)
    by (apply cudaMalloc_length || by rewrite length_fmap, length_seq).
  simpl.
  rewrite cudaMemset_zero_eq by (by rewrite cudaMalloc_length).
  simpl. rewrite drop_ge by (by rewrite cudaMalloc_length).
  rewrite app_nil_r. do 2 f_equal.
  rewrite <- list_fmap_compose. done.
Qed.

End ConstructorFacts.

(** Claim C5.  The [scale] argument of [init_weights], for which the
    constructor passes [sqrt(2 / input_size)], has no influence: for any two
    scales a thread of the kernel, a whole launch of it, and the constructor
    run with one scale or the other give the same result, and, for sizes
    whose weight count plus the block size fits an [int], every weight [i]
    of the constructed layer is [(u * 2.0f - 1.0f) * sqrtf(6.0f / size)]
    for its draw [u], with [size = input_size * output_size]. *)
Theorem init_weights_scale_unused {curandState : Type}
    (curand_init : Z -> nat -> nat -> curandState)
    (curand_uniform : curandState -> float * curandState)
    (scale1 scale2 : float) :
  (forall size blockIdx blockDim threadIdx ws,
     init_weights curand_uniform size scale1 blockIdx blockDim threadIdx ws
     = init_weights curand_uniform size scale2 blockIdx blockDim threadIdx ws) /\
  (forall size numBlocks blockSize ws,
     launch numBlocks blockSize (init_weights curand_uniform size scale1) ws
     = launch numBlocks blockSize (init_weights curand_uniform size scale2) ws) /\
  (forall input_size output_size junk_w junk_b junk_gw junk_gb junk_st,
     (Z.of_nat (input_size * output_size) + 256 <= 2147483647)%Z ->
     exists L,
       FCLayer_new_with_scale curand_init curand_uniform scale1
         input_size output_size junk_w junk_b junk_gw junk_gb junk_st = Some L /\
       FCLayer_new_with_scale curand_init curand_uniform scale2
         input_size output_size junk_w junk_b junk_gw junk_gb junk_st = Some L /\
       FCLayer_new curand_init curand_uniform
         input_size output_size junk_w junk_b junk_gw junk_gb junk_st = Some L /\
       forall i, i < input_size * output_size ->
         weights L !! i
         = Some (fmul (fsub (fmul (first_draw curand_init curand_uniform i) two) one)
                   (sqrtf (fdiv six (of_int (Z.of_nat (input_size * output_size))))))).
Proof.
  split; [done |]. split; [done |].
  intros n_in n_out junk_w junk_b junk_gw junk_gb junk_st _.
  eexists. unfold FCLayer_new. rewrite !FCLayer_new_with_scale_eq.
  split; [done |]. split; [done |]. split; [done |]. cbn [weights].
  intros i Hi. rewrite list_lookup_fmap, lookup_seq_lt by done.
  cbn [fmap option_fmap option_map]. unfold init_weight_value. done.
Qed.

Lemma init_weights_scale_unused_witness :
  (Z.of_nat (2 * 1) + 256 <= 2147483647)%Z /\
  exists L,
    FCLayer_new_with_scale toy_curand_init toy_curand_uniform zero 2 1
      (λ _, nan) (λ _, nan) (λ _, nan) (λ _, nan) (λ _, 0) = Some L /\
    FCLayer_new_with_scale toy_curand_init toy_curand_uniform two 2 1
      (λ _, nan) (λ _, nan) (λ _, nan) (λ _, nan) (λ _, 0) = Some L /\
    FCLayer_new toy_curand_init toy_curand_uniform 2 1
      (λ _, nan) (λ _, nan) (λ _, nan) (λ _, nan) (λ _, 0) = Some L /\
    forall i, i < 2 * 1 ->
      weights L !! i
      = Some (fmul (fsub (fmul (first_draw toy_curand_init toy_curand_uniform i) two) one)
                (sqrtf (fdiv six (of_int (Z.of_nat (2 * 1)))))).
Proof.
  assert (H : (Z.of_nat (2 * 1) + 256 <= 2147483647)%Z) by (simpl; lia).
  split; [done |].
  exact (proj2 (proj2 (init_weights_scale_unused toy_curand_init toy_curand_uniform
                         zero two))
           2 1 (λ _, nan) (λ _, nan) (λ _, nan) (λ _, nan) (λ _, 0) H).
Defined.

(** Claim C10.  For positive sizes and a batch within [int] range (the
    weight count plus the block size, and [output_size * batch_size], do
    not exceed [INT_MAX]): the constructor writes neither gradient buffer;
    it zero-fills the bias only, and [grad_weights] and [grad_bias] of the
    new layer hold whatever their allocations held ([junk_gw],
    [junk_gb]).  The first [backward] on the new layer therefore leaves in
    every entry [k] of [grad_bias] the stale value [junk_gb k] with row
    [k] of [grad_output] added to it column by column, not the column sum
    alone. *)
Theorem constructor_leaves_gradients {curandState : Type}
    (curand_init : Z -> nat -> nat -> curandState)
    (curand_uniform : curandState -> float * curandState)
    (input_size output_size : nat)
    (junk_w junk_b junk_gw junk_gb : nat -> float) (junk_st : nat -> curandState)
    (input grad_output grad_input : buffer) (batch_size : nat) :
  0 < input_size -> 0 < output_size ->
  (Z.of_nat (input_size * output_size) + 256 <= 2147483647)%Z ->
  (Z.of_nat (output_size * batch_size) <= 2147483647)%Z ->
  length input = input_size * batch_size ->
  length grad_output = output_size * batch_size ->
  length grad_input = input_size * batch_size ->
  Forall (λ x, valid x = true) grad_output ->
  exists L,
    FCLayer_new curand_init curand_uniform input_size output_size
      junk_w junk_b junk_gw junk_gb junk_st = Some L /\
    bias L = replicate output_size zero /\
    grad_weights L = cudaMalloc junk_gw (input_size * output_size) /\
    grad_bias L = cudaMalloc junk_gb output_size /\
    (forall i, i < input_size * output_size -> grad_weights L !! i = Some (junk_gw i)) /\
    (forall k, k < output_size -> grad_bias L !! k = Some (junk_gb k)) /\
    exists L' gi,
      backward L input grad_output grad_input batch_size = Some (L', gi) /\
      forall k, k < output_size ->
        grad_bias L' !! k
          = Some (add_columns grad_output output_size batch_size k (junk_gb k)).
Proof.
  intros His Hos _ _ Hin Hgo Hgi Hv.
  eexists. unfold FCLayer_new. rewrite FCLayer_new_with_scale_eq.
  split; [done |]. simpl. split; [done |]. split; [done |]. split; [done |].
  split; [intros i Hi; by apply cudaMalloc_lookup |].
  split; [intros k Hk; by apply cudaMalloc_lookup |].
  match goal with |- context [backward ?L0 _ _ _ _] => set (L := L0) end.
  assert (HL : well_sized L).
  { unfold well_sized, L. simpl.
    rewrite length_fmap, length_seq, length_replicate, !cudaMalloc_length. done. }
  destruct (backward_spec L input grad_output grad_input batch_size)
    as (gi & gw & gb & Hb & _ & _ & (Hlgb & Hgb)); [done .. |].
  eexists _, gi. split; [exact Hb |]. simpl.
  intros k Hk. rewrite (Hgb k Hk). simpl. do 2 f_equal.
  apply list_lookup_total_correct. by apply cudaMalloc_lookup.
Qed.

Lemma constructor_leaves_gradients_witness :
  (0 < 2 /\ 0 < 1 /\
   (Z.of_nat (2 * 1) + 256 <= 2147483647)%Z /\
   (Z.of_nat (1 * 1) <= 2147483647)%Z /\
   length [one; two] = 2 * 1 /\ length [six] = 1 * 1 /\ length [nan; nan] = 2 * 1 /\
   Forall (λ x, valid x = true) [six]) /\
  exists L,
    FCLayer_new toy_curand_init toy_curand_uniform 2 1
      (λ _, nan) (λ _, nan) (λ _, nan) (λ _, two) (λ _, 0) = Some L /\
    bias L = replicate 1 zero /\
    grad_weights L = cudaMalloc (λ _, nan) (2 * 1) /\
    grad_bias L = cudaMalloc (λ _, two) 1 /\
    (forall i, i < 2 * 1 -> grad_weights L !! i = Some nan) /\
    (forall k, k < 1 -> grad_bias L !! k = Some two) /\
    exists L' gi,
      backward L [one; two] [six] [nan; nan] 1 = Some (L', gi) /\
      forall k, k < 1 ->
        grad_bias L' !! k = Some (add_columns [six] 1 1 k two).
Proof.
  assert (H1 : 0 < 2) by lia.
  assert (H2 : 0 < 1) by lia.
  assert (H4 : length [one; two] = 2 * 1) by reflexivity.
  assert (H5 : length [six] = 1 * 1) by reflexivity.
  assert (H6 : length [nan; nan] = 2 * 1) by reflexivity.
  assert (H9 : Forall (λ x, valid x = true) [six]) by (repeat constructor).
  assert (Hr1 : (Z.of_nat (2 * 1) + 256 <= 2147483647)%Z) by (simpl; lia).
  assert (Hr2 : (Z.of_nat (1 * 1) <= 2147483647)%Z) by (simpl; lia).
  split; [done |].
  exact (constructor_leaves_gradients toy_curand_init toy_curand_uniform 2 1
           (λ _, nan) (λ _, nan) (λ _, nan) (λ _, two) (λ _, 0)
           [one; two] [six] [nan; nan] 1 H1 H2 Hr1 Hr2 H4 H5 H6 H9).
Defined.

(** *** The initial weights *)

Lemma fleb_finite_mag_le (s : bool) (m mb : positive) (e eb : Z) :
  fleb (S754_finite false m e) (S754_finite false mb eb) = true ->
  mag_le (S754_finite s m e) mb eb.
Proof.
  unfold fleb, SFleb, SFcompare, mag_le.
  destruct (e ?= eb)%Z eqn:Hc; intros Hle; [right | left | done].
  - split; [by apply Z.compare_eq_iff |].
    fold (Pos.compare m mb) in Hle.
    destruct (Pos.compare_spec m mb); try done; lia.
  - by apply Z.compare_lt_iff.
Qed.

Lemma unit_interval_mag_le (u : float) :
  fleb zero u = true -> fleb u one = true ->
  is_nonneg u /\ mag_le u 8388608 (-23).
Proof.
  destruct u as [s|[]| |[] m e]; try done.
  intros _ Hle. split; [reflexivity |]. by apply fleb_finite_mag_le.
Qed.

(** For a draw [u] in the unit interval the weight
    [(u * 2 - 1) * sqrtf(6.0f / size)] does not exceed the radius
    [sqrtf(6.0f / size)] in magnitude. *)
Lemma init_weight_value_bound (size : nat) (u : float) :
  (1 <= Z.of_nat size <= 2147483647)%Z ->
  valid u = true -> fleb zero u = true -> fleb u one = true ->
  fleb (fabs (init_weight_value size u))
       (sqrtf (fdiv six (of_int (Z.of_nat size)))) = true.
Proof.
  intros Hsize Hv H0 H1. unfold init_weight_value. cbv zeta.
  destruct (init_radius_finite (Z.of_nat size)) as (mr & er & -> & Hvr); [lia |].
  destruct (unit_interval_mag_le u H0 H1) as [Hs Hle].
  destruct (fmul_two_le u Hv Hs Hle) as (Hvt & Hst & Hlet).
  destruct (fsub_one_le (fmul u two) Hvt Hst Hlet) as (Hvx & Hlex).
  apply mag_le_fleb. by apply fmul_le_bound.
Qed.

(** Claim C4.  For a generator whose draws are binary32 values in the unit
    interval and sizes whose weight count plus the block size fits an
    [int] ([input_size * output_size + 256 <= INT_MAX], so that the grid
    computation does not overflow), the constructor terminates without an
    invalid access; every weight [i] is
    [(u * 2 - 1) * r] for its draw [u] and the radius
    [r = sqrtf(6.0f / (input_size * output_size))] computed by the kernel,
    and satisfies [|w| <= r]; every bias entry is [+0.0f]. *)
Theorem initial_weights_bounded {curandState : Type}
    (curand_init : Z -> nat -> nat -> curandState)
    (curand_uniform : curandState -> float * curandState)
    (input_size output_size : nat)
    (junk_w junk_b junk_gw junk_gb : nat -> float) (junk_st : nat -> curandState) :
  (forall st, valid (curand_uniform st).1 = true /\
              fleb zero (curand_uniform st).1 = true /\
              fleb (curand_uniform st).1 one = true) ->
  (Z.of_nat (input_size * output_size) + 256 <= 2147483647)%Z ->
  exists L,
    FCLayer_new curand_init curand_uniform input_size output_size
      junk_w junk_b junk_gw junk_gb junk_st = Some L /\
    length (weights L) = input_size * output_size /\
    (forall i, i < input_size * output_size ->
       exists w,
         let u := first_draw curand_init curand_uniform i in
         let r := sqrtf (fdiv six (of_int (Z.of_nat (input_size * output_size)))) in
         weights L !! i = Some w /\
         w = fmul (fsub (fmul u two) one) r /\
         fleb (fabs w) r = true) /\
    bias L = replicate output_size zero /\
    (forall k, k < output_size -> bias L !! k = Some zero).
Proof.
  intros Hu Hsize.
  eexists. unfold FCLayer_new. rewrite FCLayer_new_with_scale_eq.
  split; [done |]. simpl.
  split; [by rewrite length_fmap, length_seq |].
  split; [| split; [done | intros k Hk; by apply lookup_replicate]].
  intros i Hi. eexists. cbv zeta.
  split; [by rewrite list_lookup_fmap, lookup_seq_lt |]. split; [done |].
  destruct (Hu (curand_init 1234%Z i 0)) as (Hv & H0 & H1).
  apply init_weight_value_bound; [lia | done ..].
Qed.

Lemma initial_weights_bounded_witness :
  ((forall st, valid (toy_curand_uniform st).1 = true /\
               fleb zero (toy_curand_uniform st).1 = true /\
               fleb (toy_curand_uniform st).1 one = true) /\
   (Z.of_nat (2 * 1) + 256 <= 2147483647)%Z) /\
  exists L,
    FCLayer_new toy_curand_init toy_curand_uniform 2 1
      (λ _, nan) (λ _, nan) (λ _, nan) (λ _, nan) (λ _, 0) = Some L /\
    length (weights L) = 2 * 1 /\
    (forall i, i < 2 * 1 ->
       exists w,
         let u := first_draw toy_curand_init toy_curand_uniform i in
         let r := sqrtf (fdiv six (of_int (Z.of_nat (2 * 1)))) in
         weights L !! i = Some w /\
         w = fmul (fsub (fmul u two) one) r /\
         fleb (fabs w) r = true) /\
    bias L = replicate 1 zero /\
    (forall k, k < 1 -> bias L !! k = Some zero).
Proof.
  assert (H1 : forall st, valid (toy_curand_uniform st).1 = true /\
                          fleb zero (toy_curand_uniform st).1 = true /\
                          fleb (toy_curand_uniform st).1 one = true)
    by (intros st; repeat split).
  assert (H2 : (Z.of_nat (2 * 1) + 256 <= 2147483647)%Z) by (simpl; lia).
  split; [done |].
  exact (initial_weights_bounded toy_curand_init toy_curand_uniform 2 1
           (λ _, nan) (λ _, nan) (λ _, nan) (λ _, nan) (λ _, 0) H1 H2).
Defined.

(** ** The 4 × 3 scenario, evaluated *)

(** [backward] with an all-ones [grad_output]: [grad_input = W · 1],
    [grad_weights = Input · 1ᵗ] and [grad_bias = (2, 2, 2)]. *)
Example scenario_backward :
  backward scenario_layer scenario_input (replicate 6 one) (replicate 8 nan) 2
  = Some (mkFCLayer 4 3 (weights scenario_layer) (bias scenario_layer)
            (of_int <$> [1; 1; 0; 0; 1; 1; 0; 0; 1; 1; 0; 0]%Z)
            (of_int <$> [2; 2; 2]%Z),
          of_int <$> [15; 18; 21; 24; 15; 18; 21; 24]%Z).
Proof. vm_compute. reflexivity. Qed.

(** A second identical call doubles [grad_bias] and nothing else. *)
Example scenario_backward_again :
  ('(L1, gi) ← backward scenario_layer scenario_input (replicate 6 one)
                  (replicate 8 nan) 2;
   backward L1 scenario_input (replicate 6 one) gi 2)
  = Some (mkFCLayer 4 3 (weights scenario_layer) (bias scenario_layer)
            (of_int <$> [1; 1; 0; 0; 1; 1; 0; 0; 1; 1; 0; 0]%Z)
            (of_int <$> [4; 4; 4]%Z),
          of_int <$> [15; 18; 21; 24; 15; 18; 21; 24]%Z).
Proof. vm_compute. reflexivity. Qed.

(** [forward] returns the bias in both columns, where the affine map has
    [(2, 7, 12)] and [(3, 8, 13)]. *)
Example scenario_forward :
  forward scenario_layer scenario_input (replicate 6 nan) 2
    = Some (of_int <$> [1; 2; 3; 1; 2; 3]%Z) /\
  (λ j, (λ i, affine_entry scenario_layer scenario_input i j) <$> seq 0 3) <$> seq 0 2
    = [of_int <$> [2; 7; 12]%Z; of_int <$> [3; 8; 13]%Z].
Proof. split; vm_compute; reflexivity. Qed.

(** A gradient step with learning rate [2.0f] on the sample layer. *)
Example sample_update :
  update_params sample_layer two
  = Some (mkFCLayer 2 1 (of_int <$> [-3; 0]%Z) (of_int <$> [4]%Z) [two; one] [one]).
Proof. vm_compute. reflexivity. Qed.

(** * Further properties of the operations *)

(** ** What a completed loop tells about its steps *)

Lemma for_loop_Some_inv {St} (P : St -> Prop) (n start : nat)
    (body : nat -> St -> option St) (s s' : St) :
  for_loop n start body s = Some s' ->
  P s ->
  (forall i s1 s2, start <= i < start + n -> P s1 -> body i s1 = Some s2 -> P s2) ->
  P s' /\
  forall i, start <= i < start + n -> exists s1 s2, P s1 /\ body i s1 = Some s2.
Proof.
  revert start s. induction n as [|n IH]; intros start s Hl Hs Hstep; simpl in Hl.
  - injection Hl as <-. split; [done | intros i Hi; lia].
  - destruct (body start s) as [s1|] eqn:Hb; [simpl in Hl | done].
    destruct (IH (S start) s1 Hl) as [Hs' Hall].
    + apply (Hstep start s s1); [lia | done | done].
    + intros i t1 t2 Hi. apply Hstep. lia.
    + split; [done |]. intros i Hi.
      destruct (decide (i = start)) as [-> | Hne]; [by exists s, s1 |].
      apply Hall. lia.
Qed.

Lemma launch_Some_inv {St} (P : St -> Prop) (numBlocks blockSize : nat)
    (kernel : nat -> nat -> nat -> St -> option St) (s s' : St) :
  launch numBlocks blockSize kernel s = Some s' ->
  P s ->
  (forall b t s1 s2, P s1 -> kernel b blockSize t s1 = Some s2 -> P s2) ->
  P s' /\
  forall b t, b < numBlocks -> t < blockSize ->
    exists s1 s2, P s1 /\ kernel b blockSize t s1 = Some s2.
Proof.
  intros Hl Hs Hstep. unfold launch in Hl.
  assert (Hin : forall b s1 s2,
            P s1 ->
            for_loop blockSize 0 (λ threadIdx s, kernel b blockSize threadIdx s) s1
              = Some s2 ->
            P s2 /\ forall t, t < blockSize ->
                      exists t1 t2, P t1 /\ kernel b blockSize t t1 = Some t2).
  { intros b s1 s2 Hs1 Hb.
    destruct (for_loop_Some_inv P blockSize 0 _ s1 s2 Hb Hs1) as [H2 Hall].
    - intros t t1 t2 _. apply Hstep.
    - split; [done |]. intros t Ht. apply Hall. lia. }
  destruct (for_loop_Some_inv P numBlocks 0 _ s s' Hl Hs) as [Hs' Hall].
  - intros b s1 s2 _ Hs1 Hb. by destruct (Hin b s1 s2 Hs1 Hb).
  - split; [done |]. intros b t Hb Ht.
    destruct (Hall b) as (s1 & s2 & Hs1 & Hb'); [lia |].
    destruct (Hin b s1 s2 Hs1 Hb') as [_ Ht']. by apply Ht'.
Qed.

Lemma store_Some_inv {A} (b b' : list A) (i : nat) (v : A) :
  store b i v = Some b' -> i < length b /\ length b' = length b.
Proof.
  unfold store. destruct (decide (i < length b)); [| done].
  intros [= <-]. by rewrite length_insert.
Qed.

Lemma load_Some_inv {A} (b : list A) (i : nat) (v : A) :
  load b i = Some v -> i < length b.
Proof. unfold load. apply lookup_lt_Some. Qed.

Lemma cudaMemcpy_Some_inv (dst dst' : buffer) (dst_off : nat) (src : buffer) (count : nat) :
  cudaMemcpy dst dst_off src count = Some dst' ->
  length dst' = length dst /\
  forall k, k < count -> k < length src /\ dst_off + k < length dst.
Proof.
  intros Hc. unfold cudaMemcpy in Hc.
  destruct (for_loop_Some_inv (λ d : buffer, length d = length dst) count 0 _ dst dst' Hc)
    as [Hlen Hall]; [done | |].
  - intros k d1 d2 _ Hd1 Hb. destruct (load src k) as [v|]; [simpl in Hb | done].
    apply store_Some_inv in Hb as [_ ->]. done.
  - split; [done |]. intros k Hk.
    destruct (Hall k) as (d1 & d2 & Hd1 & Hb); [lia |].
    destruct (load src k) as [v|] eqn:Hv; [simpl in Hb | done].
    apply load_Some_inv in Hv. apply store_Some_inv in Hb as [Hi _]. lia.
Qed.

Lemma gemm_dot_Some_inv (transa transb : cublasOperation_t) (k : nat)
    (A : buffer) (lda : nat) (B : buffer) (ldb : nat) (i j : nat) (acc : float) :
  gemm_dot transa transb k A lda B ldb i j = Some acc ->
  forall l, l < k ->
    mat_index transa lda i l < length A /\ mat_index transb ldb l j < length B.
Proof.
  intros Hd. unfold gemm_dot in Hd.
  destruct (for_loop_Some_inv (λ _, True) k 0 _ zero acc Hd) as [_ Hall]; [done .. |].
  intros l Hl. destruct (Hall l) as (a1 & a2 & _ & Hb); [lia |].
  destruct (load A (mat_index transa lda i l)) as [a|] eqn:Ha; [simpl in Hb | done].
  destruct (load B (mat_index transb ldb l j)) as [b|] eqn:Hb'; [| done].
  split; by eapply load_Some_inv.
Qed.

Lemma cublasSgemm_Some_inv (transa transb : cublasOperation_t) (m n k : nat)
    (alpha : float) (A : buffer) (lda : nat) (B : buffer) (ldb : nat)
    (beta : float) (C C' : buffer) (ldc : nat) :
  is_zero beta = true ->
  cublasSgemm transa transb m n k alpha A lda B ldb beta C ldc = Some C' ->
  length C' = length C /\
  (gemm_args_ok transa transb m n k lda ldb ldc = true ->
   forall i j, i < m -> j < n ->
     i + j * ldc < length C /\
     forall l, l < k ->
       mat_index transa lda i l < length A /\ mat_index transb ldb l j < length B).
Proof.
  intros Hbeta Hg. unfold cublasSgemm in Hg. rewrite Hbeta in Hg.
  destruct (gemm_args_ok transa transb m n k lda ldb ldc) eqn:Hok;
    [| injection Hg as <-; by split].
  assert (Hin : forall j (C1 C2 : buffer),
            length C1 = length C ->
            for_loop m 0
              (λ i C, acc ← gemm_dot transa transb k A lda B ldb i j;
                      v ← Some (fmul alpha acc);
                      store C (i + j * ldc) v) C1 = Some C2 ->
            length C2 = length C /\
            forall i, i < m ->
              i + j * ldc < length C /\
              forall l, l < k ->
                mat_index transa lda i l < length A /\
                mat_index transb ldb l j < length B).
  { intros j C1 C2 HC1 Hl.
    destruct (for_loop_Some_inv (λ c : buffer, length c = length C) m 0 _ C1 C2 Hl)
      as [Hlen Hall]; [done | |].
    - intros i c1 c2 _ Hc1 Hb.
      destruct (gemm_dot transa transb k A lda B ldb i j); [simpl in Hb | done].
      apply store_Some_inv in Hb as [_ ->]. done.
    - split; [done |]. intros i Hi.
      destruct (Hall i) as (c1 & c2 & Hc1 & Hb); [lia |].
      destruct (gemm_dot transa transb k A lda B ldb i j) as [acc|] eqn:Hd;
        [simpl in Hb | done].
      apply store_Some_inv in Hb as [Hidx _]. split; [lia |].
      by eapply gemm_dot_Some_inv. }
  destruct (for_loop_Some_inv (λ c : buffer, length c = length C) n 0 _ C C' Hg)
    as [Hlen Hall]; [done | |].
  - intros j c1 c2 _ Hc1 Hb. by destruct (Hin j c1 c2 Hc1 Hb).
  - split; [done |]. intros _ i j Hi Hj.
    destruct (Hall j) as (c1 & c2 & Hc1 & Hb); [lia |].
    destruct (Hin j c1 c2 Hc1 Hb) as [_ Hi']. by apply Hi'.
Qed.

Lemma cublasSaxpy_Some_inv (n : nat) (alpha : float) (x : buffer) (x_off : nat)
    (y y' : buffer) :
  cublasSaxpy n alpha x x_off 1 y 1 = Some y' ->
  length y' = length y /\
  forall k, k < n -> x_off + k < length x /\ k < length y.
Proof.
  intros Hs. unfold cublasSaxpy in Hs.
  destruct (for_loop_Some_inv (λ c : buffer, length c = length y) n 0 _ y y' Hs)
    as [Hlen Hall]; [done | |].
  - intros k c1 c2 _ Hc1 Hb.
    destruct (load x (x_off + k * 1)); [simpl in Hb | done].
    destruct (load c1 (k * 1)); [simpl in Hb | done].
    apply store_Some_inv in Hb as [_ ->]. done.
  - split; [done |]. intros k Hk.
    destruct (Hall k) as (c1 & c2 & Hc1 & Hb); [lia |].
    destruct (load x (x_off + k * 1)) as [xv|] eqn:Hx; [simpl in Hb | done].
    destruct (load c1 (k * 1)) as [yv|] eqn:Hy; [| done].
    apply load_Some_inv in Hx, Hy. lia.
Qed.

(** ** [forward]: its whole effect, and the sizes it needs *)

Lemma length_concat_replicate {A} (n : nat) (b : list A) :
  length (concat (replicate n b)) = n * length b.
Proof. induction n as [|n IH]; simpl; [done |]. rewrite length_app, IH. lia. Qed.

Lemma lookup_concat_replicate {A} (n j k : nat) (b : list A) :
  j < n -> k < length b ->
  concat (replicate n b) !! (k + j * length b) = b !! k.
Proof.
  revert j. induction n as [|n IH]; intros j Hj Hk; [lia |]. simpl.
  destruct j as [|j].
  - rewrite Nat.add_0_r. by apply lookup_app_l.
  - rewrite lookup_app_r by lia.
    replace (k + S j * length b - length b) with (k + j * length b) by lia.
    apply IH; lia.
Qed.

Lemma cublasSgemm_frame (transa transb : cublasOperation_t) (m n k : nat)
    (alpha : float) (A : buffer) (lda : nat) (B : buffer) (ldb : nat)
    (beta : float) (C : buffer) (ldc : nat) :
  is_zero beta = true ->
  (forall i l, i < m -> l < k -> mat_index transa lda i l < length A) ->
  (forall l j, l < k -> j < n -> mat_index transb ldb l j < length B) ->
  (forall i j, i < m -> j < n -> i + j * ldc < length C) ->
  exists C',
    cublasSgemm transa transb m n k alpha A lda B ldb beta C ldc = Some C' /\
    length C' = length C /\
    forall idx, (forall i j, i < m -> j < n -> idx <> i + j * ldc) ->
      C' !! idx = C !! idx.
Proof.
  intros Hbeta HA HB HC.
  destruct (gemm_args_ok transa transb m n k lda ldb ldc) eqn:Hok.
  - destruct (cublasSgemm_overwrite transa transb m n k alpha A lda B ldb beta C ldc)
      as (C' & Hg & Hlen & _ & Hframe); try done. by exists C'.
  - exists C. unfold cublasSgemm. by rewrite Hok.
Qed.

(** [forward] on buffers that are at least large enough, with column
    offsets that fit an [int]: the result is the bias once per batch item,
    followed by the untouched rest of the output buffer.  Neither the
    input nor the weights occur in it. *)
Theorem forward_result (L : FCLayer) (input output : buffer) (batch_size : nat) :
  (Z.of_nat (output_size L * batch_size) <= 2147483647)%Z ->
  input_size L * output_size L <= length (weights L) ->
  length (bias L) = output_size L ->
  input_size L * batch_size <= length input ->
  output_size L * batch_size <= length output ->
  forward L input output batch_size
    = Some (concat (replicate batch_size (bias L))
            ++ drop (output_size L * batch_size) output).
Proof.
  intros _ Hw Hb Hin Hout. unfold forward. cbv zeta.
  destruct (cublasSgemm_frame CUBLAS_OP_T CUBLAS_OP_N
              (output_size L) batch_size (input_size L) one
              (weights L) (input_size L) input (input_size L)
              zero output (output_size L)) as (out1 & -> & Hlen1 & Hframe); [done | ..].
  { intros i l Hi Hl. simpl. nia. }
  { intros l j Hl Hj. simpl. nia. }
  { intros i j Hi Hj. nia. }
  simpl.
  set (os := output_size L) in *.
  destruct (for_loop_writes batch_size
    (λ i output, cudaMemcpy output (i * os) (bias L) os)
    (λ j idx, if decide (j * os <= idx < j * os + os)
              then bias L !! (idx - j * os) else None) out1)
    as (out & -> & Hlen & Hout').
  - intros j C' Hj HlenC. apply cudaMemcpy_writes; [lia |].
    rewrite HlenC, Hlen1. nia.
  - f_equal. apply list_eq. intros idx. rewrite Hout'.
    destruct (decide (idx < os * batch_size)) as [Hlt | Hge].
    + assert (Hos : 0 < os) by nia.
      pose proof (Nat.div_mod idx os ltac:(lia)) as Hd.
      pose proof (Nat.mod_upper_bound idx os ltac:(lia)) as Hm.
      assert (Hj : idx / os < batch_size)
        by (apply Nat.Div0.div_lt_upper_bound; lia).
      set (j := idx / os) in *. set (k := idx mod os) in *.
      destruct (lookup_lt_is_Some_2 (bias L) k) as [v Hv]; [lia |].
      rewrite (writes_upto_last _ _ _ j v); [| done | |].
      * simpl. rewrite lookup_app_l by (rewrite length_concat_replicate; lia).
        replace idx with (k + j * length (bias L)) by lia.
        rewrite lookup_concat_replicate by lia. done.
      * rewrite decide_True by lia. rewrite <- Hv. f_equal. lia.
      * intros j' Hj'. rewrite decide_False; [done | nia].
    + rewrite writes_upto_None.
      * simpl. rewrite lookup_app_r by (rewrite length_concat_replicate; lia).
        rewrite length_concat_replicate, lookup_drop, Hframe.
        -- f_equal. lia.
        -- intros i j Hi Hj. nia.
      * intros j Hj. rewrite decide_False; [done | nia].
Qed.

Lemma forward_result_witness :
  ((Z.of_nat (output_size sample_layer * 2) <= 2147483647)%Z /\
   input_size sample_layer * output_size sample_layer <= length (weights sample_layer) /\
   length (bias sample_layer) = output_size sample_layer /\
   input_size sample_layer * 2 <= length [one; two; six; one; nan] /\
   output_size sample_layer * 2 <= length [nan; nan; two]) /\
  forward sample_layer [one; two; six; one; nan] [nan; nan; two] 2
    = Some (concat (replicate 2 (bias sample_layer))
            ++ drop (output_size sample_layer * 2) [nan; nan; two]).
Proof.
  assert (H1 : input_size sample_layer * output_size sample_layer
               <= length (weights sample_layer)) by (simpl; lia).
  assert (H2 : length (bias sample_layer) = output_size sample_layer) by reflexivity.
  assert (H3 : input_size sample_layer * 2 <= length [one; two; six; one; nan])
    by (simpl; lia).
  assert (H4 : output_size sample_layer * 2 <= length [nan; nan; two]) by (simpl; lia).
  assert (Hr : (Z.of_nat (output_size sample_layer * 2) <= 2147483647)%Z)
    by (simpl; lia).
  split; [done |].
  exact (forward_result sample_layer [one; two; six; one; nan] [nan; nan; two] 2
           Hr H1 H2 H3 H4).
Defined.

(** [forward] checks no dimension: with positive sizes it completes
    without an access outside a buffer only if the weights, the bias, the
    input and the output are at least as large as the shapes require. *)
Theorem forward_requires_sizes (L : FCLayer) (input output out : buffer)
    (batch_size : nat) :
  0 < input_size L -> 0 < output_size L -> 0 < batch_size ->
  forward L input output batch_size = Some out ->
  input_size L * output_size L <= length (weights L) /\
  input_size L * batch_size <= length input /\
  output_size L * batch_size <= length output /\
  output_size L <= length (bias L) /\
  length out = length output.
Proof.
  intros His Hos Hbs Hf. unfold forward in Hf. cbv zeta in Hf.
  destruct (cublasSgemm CUBLAS_OP_T CUBLAS_OP_N (output_size L) batch_size
              (input_size L) one (weights L) (input_size L) input (input_size L)
              zero output (output_size L)) as [out1|] eqn:Hg; [simpl in Hf | done].
  apply cublasSgemm_Some_inv in Hg as [Hlen1 Hidx]; [| done].
  assert (Hok : gemm_args_ok CUBLAS_OP_T CUBLAS_OP_N (output_size L) batch_size
                  (input_size L) (input_size L) (input_size L) (output_size L) = true).
  { unfold gemm_args_ok. simpl. rewrite !andb_true_iff, !bool_decide_eq_true. lia. }
  destruct (Hidx Hok (output_size L - 1) (batch_size - 1)) as [HC HAB]; [lia | lia |].
  destruct (HAB (input_size L - 1)) as [HA HB]; [lia |]. simpl in HA, HB.
  destruct (for_loop_Some_inv (λ c : buffer, length c = length out1)
              batch_size 0 _ out1 out Hf) as [Hlen Hall]; [done | |].
  - intros i c1 c2 _ Hc1 Hb. apply cudaMemcpy_Some_inv in Hb as [-> _]. done.
  - destruct (Hall 0) as (c1 & c2 & Hc1 & Hb); [lia |].
    apply cudaMemcpy_Some_inv in Hb as [_ Hk].
    destruct (Hk (output_size L - 1)) as [Hbias _]; [lia |].
    repeat split; [nia | nia | nia | lia | lia].
Qed.

Lemma forward_requires_sizes_witness :
  (0 < input_size sample_layer /\ 0 < output_size sample_layer /\ 0 < 1 /\
   forward sample_layer [one; one] [zero] 1 = Some [six]) /\
  input_size sample_layer * output_size sample_layer <= length (weights sample_layer) /\
  input_size sample_layer * 1 <= length [one; one] /\
  output_size sample_layer * 1 <= length [zero] /\
  output_size sample_layer <= length (bias sample_layer) /\
  length [six] = length [zero].
Proof.
  assert (H1 : 0 < input_size sample_layer) by (simpl; lia).
  assert (H2 : 0 < output_size sample_layer) by (simpl; lia).
  assert (H3 : 0 < 1) by lia.
  assert (H4 : forward sample_layer [one; one] [zero] 1 = Some [six])
    by (vm_compute; reflexivity).
  split; [done |].
  exact (forward_requires_sizes sample_layer [one; one] [zero] [six] 1 H1 H2 H3 H4).
Defined.

(** A short output buffer: [forward] runs outside it. *)
Example forward_short_output :
  forward sample_layer [one; one; two; two] [zero] 2 = None.
Proof. vm_compute. reflexivity. Qed.

(** ** [backward]: empty batches, the sizes it needs, the sizes it keeps *)

(** With an empty batch [backward] still runs the weight-gradient product,
    over zero terms: [grad_weights] becomes all [+0.0f], while [grad_bias]
    and the caller's [grad_input] buffer stay as they are. *)
Theorem backward_empty_batch (L : FCLayer) (input grad_output grad_input : buffer) :
  well_sized L ->
  backward L input grad_output grad_input 0
    = Some (mkFCLayer (input_size L) (output_size L) (weights L) (bias L)
              (replicate (input_size L * output_size L) zero) (grad_bias L),
            grad_input).
Proof.
  intros (Hw & Hb & Hgw & Hgb). unfold backward. cbv zeta.
  assert (H1 : cublasSgemm CUBLAS_OP_N CUBLAS_OP_N (input_size L) 0 (output_size L)
                 one (weights L) (input_size L) grad_output (output_size L)
                 zero grad_input (input_size L) = Some grad_input).
  { unfold cublasSgemm. by destruct (gemm_args_ok _ _ _ _ _ _ _ _). }
  rewrite H1. simpl.
  assert (H2 : cublasSgemm CUBLAS_OP_N CUBLAS_OP_T (input_size L) (output_size L) 0
                 one input (input_size L) grad_output (output_size L)
                 zero (grad_weights L) (input_size L)
               = Some (replicate (input_size L * output_size L) zero)).
  { destruct (gemm_args_ok CUBLAS_OP_N CUBLAS_OP_T (input_size L) (output_size L) 0
                (input_size L) (output_size L) (input_size L)) eqn:Hok.
    - assert (His : 0 < input_size L).
      { unfold gemm_args_ok in Hok. simpl in Hok.
        rewrite !andb_true_iff, !bool_decide_eq_true in Hok. lia. }
      destruct (cublasSgemm_overwrite CUBLAS_OP_N CUBLAS_OP_T
                  (input_size L) (output_size L) 0 one
                  input (input_size L) grad_output (output_size L)
                  zero (grad_weights L) (input_size L))
        as (gw & -> & Hlen & Hval & _); [done | done | intros; lia | intros; lia | |].
      { intros i j Hi Hj. rewrite Hgw. nia. }
      f_equal.
      apply (buffer_eq_by_entries _ _ (input_size L) (output_size L));
        [done | lia | by rewrite length_replicate |].
      intros i j Hi Hj. rewrite Hval by done.
      symmetry. apply lookup_replicate. split; [done | nia].
    - unfold cublasSgemm. rewrite Hok. f_equal.
      assert (input_size L * output_size L = 0) as Hz.
      { unfold gemm_args_ok in Hok. simpl in Hok.
        rewrite !andb_false_iff, !bool_decide_eq_false in Hok. nia. }
      rewrite Hz in *. by apply nil_length_inv. }
  rewrite H2. done.
Qed.

Lemma backward_empty_batch_witness :
  well_sized sample_layer /\
  backward sample_layer [] [] [nan] 0
    = Some (mkFCLayer (input_size sample_layer) (output_size sample_layer)
              (weights sample_layer) (bias sample_layer)
              (replicate (input_size sample_layer * output_size sample_layer) zero)
              (grad_bias sample_layer),
            [nan]).
Proof.
  assert (H : well_sized sample_layer) by (repeat split).
  split; [done |].
  exact (backward_empty_batch sample_layer [] [] [nan] H).
Defined.

(** [backward] checks no dimension either: with positive sizes it completes
    without an access outside a buffer only if all six buffers are at least
    as large as the shapes require. *)
Theorem backward_requires_sizes (L L' : FCLayer)
    (input grad_output grad_input gi : buffer) (batch_size : nat) :
  0 < input_size L -> 0 < output_size L -> 0 < batch_size ->
  backward L input grad_output grad_input batch_size = Some (L', gi) ->
  input_size L * output_size L <= length (weights L) /\
  input_size L * batch_size <= length input /\
  output_size L * batch_size <= length grad_output /\
  input_size L * batch_size <= length grad_input /\
  input_size L * output_size L <= length (grad_weights L) /\
  output_size L <= length (grad_bias L).
Proof.
  intros His Hos Hbs Hb. unfold backward in Hb. cbv zeta in Hb.
  destruct (cublasSgemm CUBLAS_OP_N CUBLAS_OP_N (input_size L) batch_size
              (output_size L) one (weights L) (input_size L) grad_output
              (output_size L) zero grad_input (input_size L))
    as [gi1|] eqn:Hg1; [simpl in Hb | done].
  destruct (cublasSgemm CUBLAS_OP_N CUBLAS_OP_T (input_size L) (output_size L)
              batch_size one input (input_size L) grad_output (output_size L)
              zero (grad_weights L) (input_size L))
    as [gw|] eqn:Hg2; [simpl in Hb | done].
  destruct (for_loop batch_size 0 _ (grad_bias L)) as [gb|] eqn:Hl; [| done].
  apply cublasSgemm_Some_inv in Hg1 as [_ Hidx1]; [| done].
  apply cublasSgemm_Some_inv in Hg2 as [_ Hidx2]; [| done].
  assert (Hok1 : gemm_args_ok CUBLAS_OP_N CUBLAS_OP_N (input_size L) batch_size
                   (output_size L) (input_size L) (output_size L) (input_size L) = true).
  { unfold gemm_args_ok. simpl. rewrite !andb_true_iff, !bool_decide_eq_true. lia. }
  assert (Hok2 : gemm_args_ok CUBLAS_OP_N CUBLAS_OP_T (input_size L) (output_size L)
                   batch_size (input_size L) (output_size L) (input_size L) = true).
  { unfold gemm_args_ok. simpl. rewrite !andb_true_iff, !bool_decide_eq_true. lia. }
  destruct (Hidx1 Hok1 (input_size L - 1) (batch_size - 1)) as [HC1 HAB1]; [lia | lia |].
  destruct (HAB1 (output_size L - 1)) as [HA1 HB1]; [lia |].
  destruct (Hidx2 Hok2 (input_size L - 1) (output_size L - 1)) as [HC2 HAB2];
    [lia | lia |].
  destruct (HAB2 (batch_size - 1)) as [HA2 HB2]; [lia |].
  simpl in HA1, HB1, HA2, HB2.
  destruct (for_loop_Some_inv (λ c : buffer, length c = length (grad_bias L))
              batch_size 0 _ (grad_bias L) gb Hl) as [_ Hall]; [done | |].
  - intros i c1 c2 _ Hc1 Hs. apply cublasSaxpy_Some_inv in Hs as [-> _]. done.
  - destruct (Hall 0) as (c1 & c2 & Hc1 & Hs); [lia |].
    apply cublasSaxpy_Some_inv in Hs as [_ Hk].
    destruct (Hk (output_size L - 1)) as [_ Hgb]; [lia |].
    repeat split; [nia | nia | nia | nia | nia | lia].
Qed.

Lemma backward_requires_sizes_witness :
  (0 < input_size sample_layer /\ 0 < output_size sample_layer /\ 0 < 1 /\
   backward sample_layer [one; two] [six] [nan; nan] 1
     = Some (mkFCLayer 2 1 [one; two] [six]
               [six; S754_finite false 12582912 (-20)] [S754_finite false 14680064 (-21)],
             [six; S754_finite false 12582912 (-20)])) /\
  input_size sample_layer * output_size sample_layer <= length (weights sample_layer) /\
  input_size sample_layer * 1 <= length [one; two] /\
  output_size sample_layer * 1 <= length [six] /\
  input_size sample_layer * 1 <= length [nan; nan] /\
  input_size sample_layer * output_size sample_layer
    <= length (grad_weights sample_layer) /\
  output_size sample_layer <= length (grad_bias sample_layer).
Proof.
  assert (H1 : 0 < input_size sample_layer) by (simpl; lia).
  assert (H2 : 0 < output_size sample_layer) by (simpl; lia).
  assert (H3 : 0 < 1) by lia.
  assert (H4 : backward sample_layer [one; two] [six] [nan; nan] 1
     = Some (mkFCLayer 2 1 [one; two] [six]
               [six; S754_finite false 12582912 (-20)] [S754_finite false 14680064 (-21)],
             [six; S754_finite false 12582912 (-20)]))
    by (vm_compute; reflexivity).
  split; [done |].
  exact (backward_requires_sizes sample_layer _ [one; two] [six] [nan; nan] _ 1
           H1 H2 H3 H4).
Defined.

(** A short [grad_output]: [backward] runs outside it. *)
Example backward_short_grad_output :
  backward sample_layer [one; two; one; two] [six] [nan; nan; nan; nan] 2 = None.
Proof. vm_compute. reflexivity. Qed.

(** The sizes are an invariant: whenever [backward] or [update_params]
    completes on a layer whose buffers have their allocated sizes, the
    resulting layer has the same sizes and buffers of the same lengths, and
    [backward] returns a [grad_input] buffer of the length it was given. *)
Theorem well_sized_preserved (L : FCLayer) :
  well_sized L ->
  (forall input grad_output grad_input batch_size L' gi,
     backward L input grad_output grad_input batch_size = Some (L', gi) ->
     well_sized L' /\ input_size L' = input_size L /\
     output_size L' = output_size L /\ length gi = length grad_input) /\
  (forall lr L',
     update_params L lr = Some L' ->
     well_sized L' /\ input_size L' = input_size L /\
     output_size L' = output_size L).
Proof.
  intros HL. pose proof HL as (Hw & Hb & Hgw & Hgb). split.
  - intros input grad_output grad_input batch_size L' gi Hbk.
    unfold backward in Hbk. cbv zeta in Hbk.
    destruct (cublasSgemm CUBLAS_OP_N CUBLAS_OP_N (input_size L) batch_size
                (output_size L) one (weights L) (input_size L) grad_output
                (output_size L) zero grad_input (input_size L))
      as [gi1|] eqn:Hg1; [simpl in Hbk | done].
    destruct (cublasSgemm CUBLAS_OP_N CUBLAS_OP_T (input_size L) (output_size L)
                batch_size one input (input_size L) grad_output (output_size L)
                zero (grad_weights L) (input_size L))
      as [gw|] eqn:Hg2; [simpl in Hbk | done].
    destruct (for_loop batch_size 0 _ (grad_bias L)) as [gb|] eqn:Hl; [| done].
    simpl in Hbk. injection Hbk as <- <-.
    apply cublasSgemm_Some_inv in Hg1 as [Hl1 _]; [| done].
    apply cublasSgemm_Some_inv in Hg2 as [Hl2 _]; [| done].
    destruct (for_loop_Some_inv (λ c : buffer, length c = length (grad_bias L))
                batch_size 0 _ (grad_bias L) gb Hl) as [Hl3 _]; [done | |].
    + intros i c1 c2 _ Hc1 Hs. apply cublasSaxpy_Some_inv in Hs as [-> _]. done.
    + unfold well_sized. simpl. repeat split; congruence.
  - intros lr L'. rewrite update_params_eq by done. intros [= <-].
    unfold well_sized. simpl. rewrite !sgd_step_length by lia. done.
Qed.

Lemma well_sized_preserved_witness :
  well_sized sample_layer /\
  (forall input grad_output grad_input batch_size L' gi,
     backward sample_layer input grad_output grad_input batch_size = Some (L', gi) ->
     well_sized L' /\ input_size L' = input_size sample_layer /\
     output_size L' = output_size sample_layer /\ length gi = length grad_input) /\
  (forall lr L',
     update_params sample_layer lr = Some L' ->
     well_sized L' /\ input_size L' = input_size sample_layer /\
     output_size L' = output_size sample_layer).
Proof.
  assert (H : well_sized sample_layer) by (repeat split).
  split; [done |].
  exact (well_sized_preserved sample_layer H).
Defined.

(** ** [update_params]: the guard of the kernel, repeated and combined steps *)



(** Two updates in a row, on a layer whose grid computations fit an [int],
    subtract the same gradient twice: the second call finds the gradient
    buffers as the first one found them. *)
Theorem update_params_twice (L : FCLayer) (lr1 lr2 : float) :
  well_sized L ->
  (Z.of_nat (input_size L * output_size L) + 256 <= 2147483647)%Z ->
  (Z.of_nat (output_size L) + 256 <= 2147483647)%Z ->
  exists L1 L2,
    update_params L lr1 = Some L1 /\
    update_params L1 lr2 = Some L2 /\
    grad_weights L2 = grad_weights L /\ grad_bias L2 = grad_bias L /\
    (forall i, i < input_size L * output_size L ->
       exists w g, weights L !! i = Some w /\ grad_weights L !! i = Some g /\
         weights L2 !! i = Some (fsub (fsub w (fmul lr1 g)) (fmul lr2 g))) /\
    (forall k, k < output_size L ->
       exists b g, bias L !! k = Some b /\ grad_bias L !! k = Some g /\
         bias L2 !! k = Some (fsub (fsub b (fmul lr1 g)) (fmul lr2 g))).
Proof.
  intros HL _ _. pose proof HL as (Hw & Hb & Hgw & Hgb).
  eexists _, _. split; [by apply update_params_eq |].
  split.
  { apply update_params_eq. unfold well_sized. simpl.
    rewrite !sgd_step_length by lia. done. }
  simpl.
  split; [done |]. split; [done |]. split.
  - intros i Hi.
    destruct (lookup_lt_is_Some_2 (weights L) i) as [w Hwi]; [lia |].
    destruct (lookup_lt_is_Some_2 (grad_weights L) i) as [g Hgi]; [lia |].
    exists w, g. split; [done |]. split; [done |].
    apply sgd_step_lookup; [by apply sgd_step_lookup | done].
  - intros k Hk.
    destruct (lookup_lt_is_Some_2 (bias L) k) as [b Hbi]; [lia |].
    destruct (lookup_lt_is_Some_2 (grad_bias L) k) as [g Hgi]; [lia |].
    exists b, g. split; [done |]. split; [done |].
    apply sgd_step_lookup; [by apply sgd_step_lookup | done].
Qed.

Lemma update_params_twice_witness :
  (well_sized sample_layer /\
   (Z.of_nat (input_size sample_layer * output_size sample_layer) + 256
      <= 2147483647)%Z /\
   (Z.of_nat (output_size sample_layer) + 256 <= 2147483647)%Z) /\
  exists L1 L2,
    update_params sample_layer one = Some L1 /\
    update_params L1 two = Some L2 /\
    grad_weights L2 = grad_weights sample_layer /\
    grad_bias L2 = grad_bias sample_layer /\
    (forall i, i < input_size sample_layer * output_size sample_layer ->
       exists w g, weights sample_layer !! i = Some w /\
         grad_weights sample_layer !! i = Some g /\
         weights L2 !! i = Some (fsub (fsub w (fmul one g)) (fmul two g))) /\
    (forall k, k < output_size sample_layer ->
       exists b g, bias sample_layer !! k = Some b /\
         grad_bias sample_layer !! k = Some g /\
         bias L2 !! k = Some (fsub (fsub b (fmul one g)) (fmul two g))).
Proof.
  assert (H : well_sized sample_layer) by (repeat split).
  assert (H2 : (Z.of_nat (input_size sample_layer * output_size sample_layer) + 256
                  <= 2147483647)%Z) by (simpl; lia).
  assert (H3 : (Z.of_nat (output_size sample_layer) + 256 <= 2147483647)%Z)
    by (simpl; lia).
  split; [done |].
  exact (update_params_twice sample_layer one two H H2 H3).
Defined.

(** One training step, [backward] then [update_params], with column
    offsets and grid computations that fit an [int]: every weight moves
    by the learning rate times its entry of [Input · GradOutputᵗ], and every
    bias entry by the learning rate times the accumulated bias gradient,
    which still contains what [grad_bias] held before the step. *)
Theorem training_step (L : FCLayer) (input grad_output grad_input : buffer)
    (batch_size : nat) (lr : float) :
  0 < input_size L -> 0 < output_size L ->
  well_sized L ->
  (Z.of_nat (output_size L * batch_size) <= 2147483647)%Z ->
  (Z.of_nat (input_size L * output_size L) + 256 <= 2147483647)%Z ->
  (Z.of_nat (output_size L) + 256 <= 2147483647)%Z ->
  length input = input_size L * batch_size ->
  length grad_output = output_size L * batch_size ->
  length grad_input = input_size L * batch_size ->
  Forall (λ x, valid x = true) input ->
  Forall (λ x, valid x = true) grad_output ->
  exists L1 gi L2,
    backward L input grad_output grad_input batch_size = Some (L1, gi) /\
    update_params L1 lr = Some L2 /\
    (forall i j, i < input_size L -> j < output_size L ->
       weights L2 !! (i + j * input_size L)
         = Some (fsub (entry (weights L) (input_size L) i j)
                   (fmul lr (dot batch_size
                               (λ l, entry input (input_size L) i l)
                               (λ l, entry grad_output (output_size L) j l))))) /\
    (forall k, k < output_size L ->
       bias L2 !! k
         = Some (fsub (bias L !!! k)
                   (fmul lr (add_columns grad_output (output_size L) batch_size k
                               (grad_bias L !!! k))))).
Proof.
  intros His Hos HL _ _ _ Hin Hgo Hgi HvI HvG. pose proof HL as (Hw & Hb & Hgw & Hgb).
  destruct (backward_spec L input grad_output grad_input batch_size)
    as (gi & gw & gb & Hbk & _ & (Hlgw & Hgw1) & (Hlgb & Hgb1)); [done .. |].
  set (L1 := mkFCLayer (input_size L) (output_size L) (weights L) (bias L) gw gb) in *.
  assert (HL1 : well_sized L1) by (unfold well_sized; simpl; repeat split; lia).
  eexists L1, gi, _. split; [exact Hbk |].
  split; [by apply update_params_eq |]. simpl. split.
  - intros i j Hi Hj. apply sgd_step_lookup.
    + unfold entry. apply list_lookup_lookup_total_lt. rewrite Hw. nia.
    + rewrite Hgw1, gemm_entry_one by done. done.
  - intros k Hk. apply sgd_step_lookup.
    + apply list_lookup_lookup_total_lt. lia.
    + by apply Hgb1.
Qed.

Lemma training_step_witness :
  (0 < input_size sample_layer /\ 0 < output_size sample_layer /\
   well_sized sample_layer /\
   (Z.of_nat (output_size sample_layer * 1) <= 2147483647)%Z /\
   (Z.of_nat (input_size sample_layer * output_size sample_layer) + 256
      <= 2147483647)%Z /\
   (Z.of_nat (output_size sample_layer) + 256 <= 2147483647)%Z /\
   length [one; two] = input_size sample_layer * 1 /\
   length [six] = output_size sample_layer * 1 /\
   length [nan; nan] = input_size sample_layer * 1 /\
   Forall (λ x, valid x = true) [one; two] /\
   Forall (λ x, valid x = true) [six]) /\
  exists L1 gi L2,
    backward sample_layer [one; two] [six] [nan; nan] 1 = Some (L1, gi) /\
    update_params L1 two = Some L2 /\
    (forall i j, i < input_size sample_layer -> j < output_size sample_layer ->
       weights L2 !! (i + j * input_size sample_layer)
         = Some (fsub (entry (weights sample_layer) (input_size sample_layer) i j)
                   (fmul two (dot 1
                               (λ l, entry [one; two] (input_size sample_layer) i l)
                               (λ l, entry [six] (output_size sample_layer) j l))))) /\
    (forall k, k < output_size sample_layer ->
       bias L2 !! k
         = Some (fsub (bias sample_layer !!! k)
                   (fmul two (add_columns [six] (output_size sample_layer) 1 k
                               (grad_bias sample_layer !!! k))))).
Proof.
  assert (H1 : 0 < input_size sample_layer) by (simpl; lia).
  assert (H2 : 0 < output_size sample_layer) by (simpl; lia).
  assert (H3 : well_sized sample_layer) by (repeat split).
  assert (H4 : length [one; two] = input_size sample_layer * 1) by reflexivity.
  assert (H5 : length [six] = output_size sample_layer * 1) by reflexivity.
  assert (H6 : length [nan; nan] = input_size sample_layer * 1) by reflexivity.
  assert (H8 : Forall (λ x, valid x = true) [one; two]) by (repeat constructor).
  assert (H9 : Forall (λ x, valid x = true) [six]) by (repeat constructor).
  assert (Hr1 : (Z.of_nat (output_size sample_layer * 1) <= 2147483647)%Z)
    by (simpl; lia).
  assert (Hr2 : (Z.of_nat (input_size sample_layer * output_size sample_layer) + 256
                   <= 2147483647)%Z) by (simpl; lia).
  assert (Hr3 : (Z.of_nat (output_size sample_layer) + 256 <= 2147483647)%Z)
    by (simpl; lia).
  split; [done |].
  exact (training_step sample_layer [one; two] [six] [nan; nan] 1 two
           H1 H2 H3 Hr1 Hr2 Hr3 H4 H5 H6 H8 H9).
Defined.

(** ** The constructor and its kernels *)

(** [init_curand_states] seeds every state of the array from the common
    seed with the state's own index as sequence number and offset zero,
    whatever the array held before. *)
Theorem curand_states_seeded {curandState : Type}
    (curand_init : Z -> nat -> nat -> curandState)
    (seed : Z) (n : nat) (states : list curandState) :
  length states = n ->
  exists states',
    launch ((n + 256 - 1) / 256) 256 (init_curand_states curand_init seed n) states
      = Some states' /\
    length states' = n /\
    forall id, id < n -> states' !! id = Some (curand_init seed id 0).
Proof.
  intros Hlen. eexists. split; [by apply init_curand_states_launch |].
  split; [by rewrite length_fmap, length_seq |].
  intros id Hid. by rewrite list_lookup_fmap, lookup_seq_lt.
Qed.

Lemma curand_states_seeded_witness :
  length [5; 6; 7] = 3 /\
  exists states',
    launch ((3 + 256 - 1) / 256) 256 (init_curand_states toy_curand_init 1234 3) [5; 6; 7]
      = Some states' /\
    length states' = 3 /\
    forall id, id < 3 -> states' !! id = Some (toy_curand_init 1234 id 0).
Proof.
  assert (H : length [5; 6; 7] = 3) by reflexivity.
  split; [done |].
  exact (curand_states_seeded toy_curand_init 1234 3 [5; 6; 7] H).
Defined.

(** [init_weights], for a [size] that an [int] can hold, draws exactly once
    from every generator state: weight [i] is
    [(u * 2.0f - 1.0f) * sqrtf(6.0f / size)] for the first draw [u] of
    state [i], and state [i] is written back advanced by that one draw. *)
Theorem init_weights_draws_once {curandState : Type}
    (curand_uniform : curandState -> float * curandState)
    (size : nat) (scale : float) (weights : buffer) (states : list curandState) :
  (Z.of_nat size <= 2147483647)%Z ->
  length weights = size -> length states = size ->
  exists weights' states',
    launch ((size + 256 - 1) / 256) 256
      (init_weights curand_uniform size scale) (weights, states)
      = Some (weights', states') /\
    length weights' = size /\ length states' = size /\
    forall i st, states !! i = Some st ->
      weights' !! i
        = Some (fmul (fsub (fmul (curand_uniform st).1 two) one)
                  (sqrtf (fdiv six (of_int (Z.of_nat size))))) /\
      states' !! i = Some (curand_uniform st).2.
Proof.
  intros _ Hw Hs. eexists _, _. split; [by apply init_weights_launch |].
  rewrite !length_fmap. split; [done |]. split; [done |].
  intros i st Hst. rewrite !list_lookup_fmap, Hst.
  cbn [fmap option_fmap option_map]. unfold init_weight_value. done.
Qed.

Lemma init_weights_draws_once_witness :
  ((Z.of_nat 2 <= 2147483647)%Z /\ length [nan; nan] = 2 /\ length [3; 8] = 2) /\
  exists weights' states',
    launch ((2 + 256 - 1) / 256) 256
      (init_weights toy_curand_uniform 2 zero) ([nan; nan], [3; 8])
      = Some (weights', states') /\
    length weights' = 2 /\ length states' = 2 /\
    forall i st, [3; 8] !! i = Some st ->
      weights' !! i
        = Some (fmul (fsub (fmul (toy_curand_uniform st).1 two) one)
                  (sqrtf (fdiv six (of_int (Z.of_nat 2))))) /\
      states' !! i = Some (toy_curand_uniform st).2.
Proof.
  assert (H0 : (Z.of_nat 2 <= 2147483647)%Z) by (simpl; lia).
  assert (H1 : length [nan; nan] = 2) by reflexivity.
  assert (H2 : length [3; 8] = 2) by reflexivity.
  split; [done |].
  exact (init_weights_draws_once toy_curand_uniform 2 zero [nan; nan] [3; 8] H0 H1 H2).
Defined.

(** The constructor completes for all sizes, zero included, whose weight
    count plus the block size fits an [int], and returns a layer with the
    requested sizes whose four buffers have the allocated lengths. *)
Theorem constructor_well_sized {curandState : Type}
    (curand_init : Z -> nat -> nat -> curandState)
    (curand_uniform : curandState -> float * curandState)
    (n_in n_out : nat)
    (junk_w junk_b junk_gw junk_gb : nat -> float) (junk_st : nat -> curandState) :
  (Z.of_nat (n_in * n_out) + 256 <= 2147483647)%Z ->
  exists L,
    FCLayer_new curand_init curand_uniform n_in n_out
      junk_w junk_b junk_gw junk_gb junk_st = Some L /\
    well_sized L /\ input_size L = n_in /\ output_size L = n_out.
Proof.
  intros _. eexists. unfold FCLayer_new. rewrite FCLayer_new_with_scale_eq.
  split; [done |]. unfold well_sized. simpl.
  rewrite length_fmap, length_seq, length_replicate, !cudaMalloc_length. done.
Qed.

Lemma constructor_well_sized_witness :
  (Z.of_nat (0 * 3) + 256 <= 2147483647)%Z /\
  exists L,
    FCLayer_new toy_curand_init toy_curand_uniform 0 3
      (λ _, nan) (λ _, nan) (λ _, nan) (λ _, nan) (λ _, 0) = Some L /\
    well_sized L /\ input_size L = 0 /\ output_size L = 3.
Proof.
  assert (H : (Z.of_nat (0 * 3) + 256 <= 2147483647)%Z) by (simpl; lia).
  split; [done |].
  exact (constructor_well_sized toy_curand_init toy_curand_uniform 0 3
           (λ _, nan) (λ _, nan) (λ _, nan) (λ _, nan) (λ _, 0) H).
Defined.

(** For sizes whose weight count plus the block size fits an [int], the
    constructor initialises every weight and every bias entry: the weights
    and the bias of the new layer are the same whatever the allocations of
    the weights, the bias and the generator states held. *)
Theorem constructor_initialises_parameters {curandState : Type}
    (curand_init : Z -> nat -> nat -> curandState)
    (curand_uniform : curandState -> float * curandState)
    (n_in n_out : nat)
    (junk_w junk_w' junk_b junk_b' junk_gw junk_gb : nat -> float)
    (junk_st junk_st' : nat -> curandState) :
  (Z.of_nat (n_in * n_out) + 256 <= 2147483647)%Z ->
  exists L L',
    FCLayer_new curand_init curand_uniform n_in n_out
      junk_w junk_b junk_gw junk_gb junk_st = Some L /\
    FCLayer_new curand_init curand_uniform n_in n_out
      junk_w' junk_b' junk_gw junk_gb junk_st' = Some L' /\
    L' = L.
Proof.
  intros _. eexists _, _. unfold FCLayer_new. rewrite !FCLayer_new_with_scale_eq. done.
Qed.

Lemma constructor_initialises_parameters_witness :
  (Z.of_nat (2 * 1) + 256 <= 2147483647)%Z /\
  exists L L',
    FCLayer_new toy_curand_init toy_curand_uniform 2 1
      (λ _, nan) (λ _, nan) (λ _, six) (λ _, two) (λ _, 0) = Some L /\
    FCLayer_new toy_curand_init toy_curand_uniform 2 1
      (λ _, one) (λ _, two) (λ _, six) (λ _, two) (λ _, 7) = Some L' /\
    L' = L.
Proof.
  assert (H : (Z.of_nat (2 * 1) + 256 <= 2147483647)%Z) by (simpl; lia).
  split; [done |].
  exact (constructor_initialises_parameters toy_curand_init toy_curand_uniform 2 1
           (λ _, nan) (λ _, one) (λ _, nan) (λ _, two) (λ _, six) (λ _, two)
           (λ _, 0) (λ _, 7) H).
Defined.

(** [update_params] right after the constructor, with no [backward] in
    between and sizes whose grid computations fit an [int], subtracts the
    stale contents of the gradient allocations from the fresh parameters:
    weight [i] becomes [(u * 2.0f - 1.0f) * sqrtf(6.0f / size)
    - lr * junk_gw[i]] and bias [k] becomes [0.0f - lr * junk_gb[k]]. *)
Theorem constructor_then_update {curandState : Type}
    (curand_init : Z -> nat -> nat -> curandState)
    (curand_uniform : curandState -> float * curandState)
    (n_in n_out : nat)
    (junk_w junk_b junk_gw junk_gb : nat -> float) (junk_st : nat -> curandState)
    (lr : float) :
  (Z.of_nat (n_in * n_out) + 256 <= 2147483647)%Z ->
  (Z.of_nat n_out + 256 <= 2147483647)%Z ->
  exists L L',
    FCLayer_new curand_init curand_uniform n_in n_out
      junk_w junk_b junk_gw junk_gb junk_st = Some L /\
    update_params L lr = Some L' /\
    (forall i, i < n_in * n_out ->
       weights L' !! i
         = Some (fsub (fmul (fsub (fmul (first_draw curand_init curand_uniform i) two)
                               one)
                         (sqrtf (fdiv six (of_int (Z.of_nat (n_in * n_out))))))
                   (fmul lr (junk_gw i)))) /\
    (forall k, k < n_out ->
       bias L' !! k = Some (fsub zero (fmul lr (junk_gb k)))).
Proof.
  intros _ _.
  eexists _, _. unfold FCLayer_new. rewrite FCLayer_new_with_scale_eq.
  split; [done |]. split.
  { apply update_params_eq. unfold well_sized. simpl.
    rewrite length_fmap, length_seq, length_replicate, !cudaMalloc_length. done. }
  cbn [weights bias grad_weights grad_bias]. split.
  - intros i Hi. apply sgd_step_lookup; [| by apply cudaMalloc_lookup].
    rewrite list_lookup_fmap, lookup_seq_lt by done.
    cbn [fmap option_fmap option_map]. unfold init_weight_value. done.
  - intros k Hk. apply sgd_step_lookup; [| by apply cudaMalloc_lookup].
    by apply lookup_replicate.
Qed.

Lemma constructor_then_update_witness :
  ((Z.of_nat (2 * 1) + 256 <= 2147483647)%Z /\
   (Z.of_nat 1 + 256 <= 2147483647)%Z) /\
  exists L L',
    FCLayer_new toy_curand_init toy_curand_uniform 2 1
      (λ _, nan) (λ _, nan) (λ _, six) (λ _, two) (λ _, 0) = Some L /\
    update_params L one = Some L' /\
    (forall i, i < 2 * 1 ->
       weights L' !! i
         = Some (fsub (fmul (fsub (fmul (first_draw toy_curand_init toy_curand_uniform i)
                                     two) one)
                         (sqrtf (fdiv six (of_int (Z.of_nat (2 * 1))))))
                   (fmul one six))) /\
    (forall k, k < 1 ->
       bias L' !! k = Some (fsub zero (fmul one two))).
Proof.
  assert (H1 : (Z.of_nat (2 * 1) + 256 <= 2147483647)%Z) by (simpl; lia).
  assert (H2 : (Z.of_nat 1 + 256 <= 2147483647)%Z) by (simpl; lia).
  split; [done |].
  exact (constructor_then_update toy_curand_init toy_curand_uniform 2 1
           (λ _, nan) (λ _, nan) (λ _, six) (λ _, two) (λ _, 0) one H1 H2).
Defined.

(** *** The initial weights are finite, and the radius is attained *)

Lemma mag_le_is_finite (x : float) (mb : positive) (eb : Z) :
  mag_le x mb eb -> is_finite x = true.
Proof. by destruct x. Qed.

Lemma init_weight_value_finite (size : nat) (u : float) :
  (1 <= Z.of_nat size <= 2147483647)%Z ->
  valid u = true -> fleb zero u = true -> fleb u one = true ->
  valid (init_weight_value size u) = true /\
  is_finite (init_weight_value size u) = true.
Proof.
  intros Hsize Hv H0 H1. unfold init_weight_value. cbv zeta.
  destruct (init_radius_finite (Z.of_nat size)) as (mr & er & -> & Hvr); [lia |].
  destruct (unit_interval_mag_le u H0 H1) as [Hs Hle].
  destruct (fmul_two_le u Hv Hs Hle) as (Hvt & Hst & Hlet).
  destruct (fsub_one_le (fmul u two) Hvt Hst Hlet) as (Hvx & Hlex).
  split; [by apply fmul_valid |].
  apply (mag_le_is_finite _ mr er). by apply fmul_le_bound.
Qed.

(** For a generator whose draws are binary32 values in the unit interval
    and sizes whose weight count plus the block size fits an [int], every
    weight of the new layer is a finite binary32 number: the initialiser
    produces no NaN and no infinity. *)
Theorem initial_weights_finite {curandState : Type}
    (curand_init : Z -> nat -> nat -> curandState)
    (curand_uniform : curandState -> float * curandState)
    (n_in n_out : nat)
    (junk_w junk_b junk_gw junk_gb : nat -> float) (junk_st : nat -> curandState) :
  (forall st, valid (curand_uniform st).1 = true /\
              fleb zero (curand_uniform st).1 = true /\
              fleb (curand_uniform st).1 one = true) ->
  (Z.of_nat (n_in * n_out) + 256 <= 2147483647)%Z ->
  exists L,
    FCLayer_new curand_init curand_uniform n_in n_out
      junk_w junk_b junk_gw junk_gb junk_st = Some L /\
    Forall (λ w, valid w = true /\ is_finite w = true) (weights L).
Proof.
  intros Hu Hsize.
  eexists. unfold FCLayer_new. rewrite FCLayer_new_with_scale_eq.
  split; [done |]. cbn [weights].
  apply Forall_fmap, Forall_lookup_2. intros idx i Hi.
  apply lookup_seq in Hi as [Heq Hi]. simpl.
  destruct (Hu (curand_init 1234%Z i 0)) as (Hv & H0 & H1).
  apply init_weight_value_finite; [lia | done ..].
Qed.

Lemma initial_weights_finite_witness :
  ((forall st, valid (toy_curand_uniform st).1 = true /\
               fleb zero (toy_curand_uniform st).1 = true /\
               fleb (toy_curand_uniform st).1 one = true) /\
   (Z.of_nat (2 * 1) + 256 <= 2147483647)%Z) /\
  exists L,
    FCLayer_new toy_curand_init toy_curand_uniform 2 1
      (λ _, nan) (λ _, nan) (λ _, nan) (λ _, nan) (λ _, 0) = Some L /\
    Forall (λ w, valid w = true /\ is_finite w = true) (weights L).
Proof.
  assert (H1 : forall st, valid (toy_curand_uniform st).1 = true /\
                          fleb zero (toy_curand_uniform st).1 = true /\
                          fleb (toy_curand_uniform st).1 one = true)
    by (intros st; repeat split).
  assert (H2 : (Z.of_nat (2 * 1) + 256 <= 2147483647)%Z) by (simpl; lia).
  split; [done |].
  exact (initial_weights_finite toy_curand_init toy_curand_uniform 2 1
           (λ _, nan) (λ _, nan) (λ _, nan) (λ _, nan) (λ _, 0) H1 H2).
Defined.

(** The radius is attained: for the largest draw, [1.0f], [init_weights]
    writes exactly [sqrtf(6.0f / size)], and this radius is a finite
    positive number for every positive [int] size. *)
Theorem init_weight_value_largest_draw (size : nat) :
  (1 <= Z.of_nat size <= 2147483647)%Z ->
  init_weight_value size one = sqrtf (fdiv six (of_int (Z.of_nat size))) /\
  is_finite (sqrtf (fdiv six (of_int (Z.of_nat size)))) = true /\
  fleb (sqrtf (fdiv six (of_int (Z.of_nat size)))) zero = false.
Proof.
  intros Hsize. unfold init_weight_value. cbv zeta.
  destruct (init_radius_finite (Z.of_nat size)) as (mr & er & -> & Hvr); [lia |].
  split; [| done].
  change (fsub (fmul one two) one) with one. by apply fmul_one_l.
Qed.

Lemma init_weight_value_largest_draw_witness :
  (1 <= Z.of_nat 12 <= 2147483647)%Z /\
  init_weight_value 12 one = sqrtf (fdiv six (of_int (Z.of_nat 12))) /\
  is_finite (sqrtf (fdiv six (of_int (Z.of_nat 12)))) = true /\
  fleb (sqrtf (fdiv six (of_int (Z.of_nat 12)))) zero = false.
Proof.
  assert (H : (1 <= Z.of_nat 12 <= 2147483647)%Z) by (simpl; lia).
  split; [done |].
  exact (init_weight_value_largest_draw 12 H).
Defined.
